(** * template-partials: the [page] package

    A shallow embedding of [src/page/page.go]: a page renderer that
    discovers layout and partial files, compiles them with a page file
    into a template set, caches the set in a map and executes it.

    Go strings are byte strings and are modelled by [string]; slices by
    [list]; [map[string]V] by [option (gmap string V)], [None] being the
    nil map; pointers [*T] by [option T], [None] being nil.  A Go result
    pair [(v, err)] is a pair whose second component is [option error]. *)

From Stdlib Require Import Ascii.
From Stdlib Require String.
From stdpp Require Import base option list strings gmap.

(** ** Library functions on strings and paths *)

Module Strings.

(** [strings.Join(elems, sep)]. *)
Fixpoint Join (elems : list string) (sep : string) : string :=
  match elems with
  | [] => EmptyString
  | [e] => e
  | e :: rest => e +:+ sep +:+ Join rest sep
  end.

(** [strings.HasPrefix(s, prefix)]. *)
Fixpoint HasPrefix (s prefix : string) {struct prefix} : bool :=
  match prefix, s with
  | EmptyString, _ => true
  | String _ _, EmptyString => false
  | String a p, String b r => if decide (a = b) then HasPrefix r p else false
  end.

(** [strings.Contains(s, substr)]: [substr] occurs somewhere within [s]. *)
Fixpoint Contains (s substr : string) : bool :=
  HasPrefix s substr ||
  match s with
  | EmptyString => false
  | String _ r => Contains r substr
  end.

(** [strings.Split(s, "/")] for the one-byte separator [sep]: the fields
    between separators, at least one field. *)
Fixpoint Split (s : string) (sep : ascii) : list string :=
  match s with
  | EmptyString => [EmptyString]
  | String c r =>
      if decide (c = sep) then EmptyString :: Split r sep
      else match Split r sep with
           | [] => [String c EmptyString]
           | f :: fs => String c f :: fs
           end
  end.

End Strings.

Module Path.

Definition Separator : ascii := "/"%char.
Definition dot : string := ".".
Definition dotdot : string := "..".

(** State of the backward scan of [Ext]. *)
Inductive scan := Scanning | Found (ext : string) | Stopped.

Fixpoint ext_scan (path : string) : scan :=
  match path with
  | EmptyString => Scanning
  | String c r =>
      match ext_scan r with
      | Scanning =>
          if decide (c = Separator) then Stopped
          else if decide (c = "."%char) then Found path
          else Scanning
      | done => done
      end
  end.

(** [filepath.Ext(path)]: the suffix beginning at the final dot in the
    final element of [path]; empty if there is no dot. *)
Definition Ext (path : string) : string :=
  match ext_scan path with
  | Found e => e
  | _ => EmptyString
  end.

(** One step of [Clean] on the stack [out] of elements kept so far
    (innermost first). *)
Definition clean_step (rooted : bool) (out : list string) (elem : string)
  : list string :=
  if decide (elem = EmptyString) then out
  else if decide (elem = dot) then out
  else if decide (elem = dotdot) then
    match out with
    | top :: below =>
        if decide (top = dotdot) then elem :: out else below
    | [] => if rooted then out else [elem]
    end
  else elem :: out.

(** [path.Clean] (and [filepath.Clean] with separator [/]): the shortest
    path name equivalent to [path] by lexical processing. *)
Definition Clean (path : string) : string :=
  match path with
  | EmptyString => dot
  | String c _ =>
      let rooted := bool_decide (c = Separator) in
      let out := foldl (clean_step rooted) [] (Strings.Split path Separator) in
      let body := Strings.Join (reverse out) "/" in
      if rooted then "/" +:+ body
      else if decide (body = EmptyString) then dot else body
  end.

(** [path.Join(dir, name)] and [filepath.Join(dir, name)]: empty elements
    are ignored and the result is cleaned. *)
Definition Join (dir name : string) : string :=
  if decide (dir = EmptyString) then
    if decide (name = EmptyString) then EmptyString else Clean name
  else Clean (dir +:+ "/" +:+ name).

End Path.

(** ** Errors, file trees and the external capabilities *)

(** A Go [error], identified with its message [err.Error()]. *)
Definition error := string.

Module fs.

(** [fs.DirEntry], as far as the walk callback reads it. *)
Record DirEntry := { Name : string; IsDir : bool }.

(** The file tree found under a root.  [entries] is what [os.ReadDir]
    returns for the directory and [readErr] the error it returns with
    them, if any. *)
#[local] Unset Elimination Schemes.
Inductive Node :=
| File (name : string)
| Dir (name : string) (entries : list Node) (readErr : option error).
#[local] Set Elimination Schemes.

Definition info (n : Node) : DirEntry :=
  match n with
  | File name => {| Name := name; IsDir := false |}
  | Dir name _ _ => {| Name := name; IsDir := true |}
  end.

End fs.

Module Walk.

(** The arguments of one call of a [fs.WalkDirFunc]: [fn(path, d, nil)]
    for an entry reached, [fn(path, d, err)] for a failure ([d] is nil
    when [Lstat] of the root failed).  The library hands a non-nil [d]
    whenever [err] is nil. *)
Inductive Call :=
| Visit (path : string) (d : fs.DirEntry)
| Failure (path : string) (d : option fs.DirEntry) (err : error).

(** A [fs.WalkDirFunc] closing over variables of type [St]. *)
Definition WalkDirFunc (St : Type) := Call → St → St * option error.

Section WalkDir.
Context {St : Type} (fn : WalkDirFunc St).

(** [filepath.walkDir]: the entry itself, then, for a directory, its
    entries in the order [os.ReadDir] lists them.  The first error the
    callback returns ends the walk.  ([fs.SkipDir] and [fs.SkipAll] are
    left out: the callback of this package returns only errors that the
    walk handed to it.) *)
Fixpoint walkDir (path : string) (n : fs.Node) (s : St) : St * option error :=
  match fn (Visit path (fs.info n)) s with
  | (s, Some err) => (s, Some err)
  | (s, None) =>
      match n with
      | fs.File _ => (s, None)
      | fs.Dir _ entries readErr =>
          let walkEntries :=
            fix walkEntries (dirs : list fs.Node) (s : St) :=
              match dirs with
              | [] => (s, None)
              | d1 :: rest =>
                  match walkDir (Path.Join path (fs.Name (fs.info d1))) d1 s with
                  | (s, Some err) => (s, Some err)
                  | (s, None) => walkEntries rest s
                  end
              end in
          match readErr with
          | Some err =>
              match fn (Failure path (Some (fs.info n)) err) s with
              | (s, Some err) => (s, Some err)
              | (s, None) => walkEntries entries s
              end
          | None => walkEntries entries s
          end
      end
  end.

(** [filepath.WalkDir(root, fn)] over the file system [lstat]. *)
Definition WalkDir (lstat : string → error + fs.Node) (root : string) (s : St)
  : St * option error :=
  match lstat root with
  | inl err => fn (Failure root None err) s
  | inr n => walkDir root n s
  end.

End WalkDir.

(** Every call [fn(path, d, nil)] of a walk that no error ends: the path
    and the entry's name, in walk order. *)
Fixpoint visits (path : string) (n : fs.Node) : list (string * string) :=
  (path, fs.Name (fs.info n)) ::
  match n with
  | fs.File _ => []
  | fs.Dir _ entries _ =>
      (fix below (dirs : list fs.Node) :=
         match dirs with
         | [] => []
         | d1 :: rest =>
             visits (Path.Join path (fs.Name (fs.info d1))) d1 ++ below rest
         end) entries
  end.

(** No directory of the tree fails to be read. *)
Fixpoint readable (n : fs.Node) : bool :=
  match n with
  | fs.File _ => true
  | fs.Dir _ entries readErr =>
      bool_decide (readErr = None) && forallb readable entries
  end.

(** The errors of the directories that cannot be read, in the order in
    which a walk comes to them. *)
Fixpoint read_errors (n : fs.Node) : list error :=
  match n with
  | fs.File _ => []
  | fs.Dir _ entries readErr =>
      match readErr with Some err => [err] | None => [] end ++
      (fix below (dirs : list fs.Node) :=
         match dirs with
         | [] => []
         | d1 :: rest => read_errors d1 ++ below rest
         end) entries
  end.

(** The paths of the entries of a walk whose name has the extension
    [ext]. *)
Definition found (ext : string) (path : string) (n : fs.Node) : list string :=
  (filter (λ pn : string * string, Path.Ext pn.2 = ext) (visits path n)).*1.

End Walk.

Module template.

(** [*template.Template] as this package uses it: a named set of
    definitions bound to a function registry. *)
Record Template (Func Defs : Type) := {
  Name : string;
  FuncReg : gmap string Func;
  Set_ : Defs;
}.
Arguments Name {Func Defs} _.
Arguments FuncReg {Func Defs} _.
Arguments Set_ {Func Defs} _.

End template.

(** What the package takes from outside: the template engine
    ([html/template]) and the file system.  The engine is opaque: it parses
    files into definitions and executes them. *)
Class Capabilities := {
  Func : Type;
  Data : Type;
  Defs : Type;
  (** the definitions of a template that has parsed nothing yet *)
  no_defs : Defs;
  (** reading and parsing [files] for the set called [name] with the
      functions [funcs] in scope: an error, or the definitions *)
  parse_files : string → gmap string Func → list string → error + Defs;
  (** [t.DefinedTemplates()] *)
  defined_templates : template.Template Func Defs → string;
  (** [t.Execute(w, data)]: the bytes written to [w], and the error *)
  execute : template.Template Func Defs → Data → string * option error;
  (** [t.ExecuteTemplate(w, name, data)] *)
  execute_template :
    template.Template Func Defs → string → Data → string * option error;
  (** [os.Lstat(root)] together with the tree below [root] *)
  lstat : string → error + fs.Node;
}.

Abbreviation FuncMap := (gmap string Func).
Abbreviation Template := (template.Template Func Defs).

(** ** The package *)

(** The [Render] struct.  Its methods take a pointer receiver, so the struct
    is part of the state they run in. *)
Record Render `{Capabilities} := mkRender {
  TemplateDir : string;
  Functions : FuncMap;
  UseCache : bool;
  TemplateMap : option (gmap string (option Template));
  Partials : list string;
  Debug : bool;
}.

(** What a run does that is visible from outside, in order. *)
Inductive Event :=
| Stdout (line : string)                       (* fmt.Println *)
| Logged (line : string)                       (* log.Println *)
| Lock                                         (* mapLock.Lock() *)
| Unlock                                       (* mapLock.Unlock() *)
| MapRead (key : string)                       (* ... = ren.TemplateMap[key] *)
| MapWrite (key : string)                      (* ren.TemplateMap[key] = ... *)
| Parsed (name : string) (files : list string) (* New(name)...ParseFiles(files...) *).

(** Run-time panics of the Go runtime. *)
Inductive Panic :=
| NilMapAssignment        (* assignment to entry in nil map *)
| NilPointerDereference.  (* invalid memory address or nil pointer dereference *)

(** The state of a run: the receiver and the events so far.  [mapLock] is a
    package variable: its [Lock] and [Unlock] events go to the one trace,
    whichever [Render] is the receiver. *)
Record State `{Capabilities} := mkState {
  ren : Render;
  trace : list Event;
}.

Inductive Outcome `{Capabilities} (A : Type) :=
| Returned (a : A) (s : State)
| Panicked (p : Panic) (s : State).
Arguments Returned {_ A} a s.
Arguments Panicked {_ A} p s.

(** Code that reads and writes the receiver, emits events and may panic. *)
Definition Go `{Capabilities} (A : Type) : Type := State → Outcome A.

#[export] Instance Go_ret `{Capabilities} : MRet Go := λ A a s, Returned a s.
#[export] Instance Go_bind `{Capabilities} : MBind Go := λ A B f m s,
  match m s with
  | Returned a s' => f a s'
  | Panicked p s' => Panicked p s'
  end.

Section Package.
Context `{Capabilities}.

Definition panic {A} (p : Panic) : Go A := λ s, Panicked p s.
Definition emit (e : Event) : Go unit :=
  λ s, Returned () (mkState _ (ren s) (trace s ++ [e])).
Definition receiver : Go Render := λ s, Returned (ren s) s.
Definition assign (r : Render) : Go unit :=
  λ s, Returned () (mkState _ r (trace s)).
Definition when (b : bool) (m : Go unit) : Go unit := if b then m else mret ().

(** The state a run ends in, returned or panicked. *)
Definition final {A} (o : Outcome A) : State :=
  match o with Returned _ s => s | Panicked _ s => s end.

(** [fmt.Println] and [log.Println] put a space between operands. *)
Definition Sprintln (operands : list string) : string :=
  Strings.Join operands " ".
(** A [[]string] operand prints as [[a b c]]. *)
Definition Sprint_slice (l : list string) : string :=
  "[" +:+ Strings.Join l " " +:+ "]".

(** [template.New(name)]. *)
Definition template_New (name : string) : Template :=
  {| template.Name := name; template.FuncReg := ∅; template.Set_ := no_defs |}.

(** [t.Funcs(funcMap)]: adds the elements of [funcMap] to the template's
    function map.  A [Func] stands for a function that the engine accepts,
    under a name that it accepts: for any other registry [Funcs] of
    [html/template] panics, and that path is outside the model. *)
Definition Funcs (funcMap : FuncMap) (t : Template) : Template :=
  {| template.Name := template.Name t;
     template.FuncReg := funcMap ∪ template.FuncReg t;
     template.Set_ := template.Set_ t |}.

(** [t.ParseFiles(filenames...)]: on an error the returned template is
    nil, otherwise it is [t] with the parsed definitions. *)
Definition ParseFiles (t : Template) (filenames : list string)
  : Go (option Template * option error) :=
  emit (Parsed (template.Name t) filenames);;
  match parse_files (template.Name t) (template.FuncReg t) filenames with
  | inl err => mret (None, Some err)
  | inr defs =>
      mret (Some {| template.Name := template.Name t;
                   template.FuncReg := template.FuncReg t;
                   template.Set_ := defs |}, None)
  end.

(** [tpl.DefinedTemplates()] through a pointer: a nil receiver is
    dereferenced. *)
Definition DefinedTemplates (tpl : option Template) : Go string :=
  match tpl with
  | None => panic NilPointerDereference
  | Some t => mret (defined_templates t)
  end.

(** [v, ok := ren.TemplateMap[key]]; a nil map reads as an empty one. *)
Definition map_lookup (key : string) : Go (option Template * bool) :=
  emit (MapRead key);;
  r ← receiver;
  match TemplateMap r with
  | None => mret (None, false)
  | Some m =>
      match m !! key with
      | None => mret (None, false)
      | Some v => mret (v, true)
      end
  end.

(** [v := ren.TemplateMap[key]]. *)
Definition map_index (key : string) : Go (option Template) :=
  '(v, _) ← map_lookup key; mret v.

(** [ren.TemplateMap[key] = v]; assigning to an entry of a nil map
    panics. *)
Definition map_store (key : string) (v : option Template) : Go unit :=
  emit (MapWrite key);;
  r ← receiver;
  match TemplateMap r with
  | None => panic NilMapAssignment
  | Some m =>
      assign (mkRender _ (TemplateDir r) (Functions r) (UseCache r)
                (Some (<[key := v]> m)) (Partials r) (Debug r))
  end.

(** [buildTemplateFromDisk] builds a new template set from disk. *)
Definition buildTemplateFromDisk (t : string)
  : Go (option Template * option error) :=
  emit (Stdout (Sprintln ["139 - page-buildTemplateFromDisk.t: "; t]));;
  r ← receiver;
  let templateSlice := [] in
  let templateSlice := templateSlice ++ Partials r in
  let templateSlice := templateSlice ++ [Path.Join (TemplateDir r) t] in
  '(tmpl, err) ← ParseFiles (Funcs (Functions r) (template_New t)) templateSlice;
  match err with
  | Some err => mret (None, Some err)
  | None =>
      emit Lock;;
      map_store t tmpl;;
      emit Unlock;;
      tpl ← map_index "about.page.tmpl";
      defined ← DefinedTemplates tpl;
      emit (Stdout (Sprintln ["174 - page-tpl.DefinedTemplates(): "; defined]));;
      r ← receiver;
      when (Debug r) (emit (Logged (Sprintln ["Reading template"; t; "from disk"])));;
      mret (tmpl, None)
  end.

(** [buildTemplate] creates a template, either from the cache or from
    disk. *)
Definition buildTemplate (t : string) : Go (option Template * option error) :=
  let tmpl := None in
  r ← receiver;
  tmpl ←
    (if UseCache r then
       '(templateFromMap, ok) ← map_lookup t;
       if ok : bool then
         when (Debug r) (emit (Logged (Sprintln ["Reading template"; t; "from cache"])));;
         mret templateFromMap
       else mret tmpl
     else mret tmpl);
  match tmpl with
  | Some _ => mret (tmpl, None)
  | None =>
      emit (Logged (Sprintln ["t"; t]));;
      '(newTemplate, err) ← buildTemplateFromDisk t;
      match err with
      | Some err =>
          emit (Logged "Error building from disk");;
          mret (None, Some err)
      | None => mret (newTemplate, None)
      end
  end.

(** The [http.ResponseWriter] a page is shown on, as the calls made on
    it: the bytes an execution wrote, and [http.Error(w, msg, code)]. *)
Inductive SinkCall :=
| Write (bytes : string)
| HttpError (msg : string) (code : nat).
Definition ResponseWriter := list SinkCall.

Definition StatusInternalServerError : nat := 500.

(** [tmpl.ExecuteTemplate(w, name, td)] and [tmpl.Execute(w, td)] through
    a pointer. *)
Definition ExecuteTemplate (tmpl : option Template) (name : string) (td : Data)
  : Go (string * option error) :=
  match tmpl with
  | None => panic NilPointerDereference
  | Some t => mret (execute_template t name td)
  end.

Definition Execute (tmpl : option Template) (td : Data)
  : Go (string * option error) :=
  match tmpl with
  | None => panic NilPointerDereference
  | Some t => mret (execute t td)
  end.

(** [Show] generates an HTML page from template file(s). *)
Definition Show (w : ResponseWriter) (t : string) (td : Data)
  : Go (ResponseWriter * option error) :=
  '(tmpl, err) ← buildTemplate t;
  match err with
  | Some err =>
      emit (Logged (Sprintln ["error building"; err]));;
      mret (w, Some err)
  | None =>
      '(written, err) ← ExecuteTemplate tmpl t td;
      let w := w ++ [Write written] in
      match err with
      | Some err =>
          emit (Logged (Sprintln ["error executing"; err]));;
          let w := w ++ [HttpError err StatusInternalServerError] in
          mret (w, Some err)
      | None => mret (w, None)
      end
  end.

(** [String] renders a template and returns it as a string. *)
Definition String_ (t : string) (td : Data) : Go (string * option error) :=
  '(tmpl, err) ← buildTemplate t;
  match err with
  | Some err => mret (EmptyString, Some err)
  | None =>
      '(tpl, err) ← Execute tmpl td;
      match err with
      | Some err => mret (EmptyString, Some err)
      | None =>
          let result := tpl in
          mret (result, None)
      end
  end.

(** [GetTemplate] gets a template from the cache, or builds it. *)
Definition GetTemplate (t : string) : Go (option Template * option error) :=
  '(tmpl, err) ← buildTemplate t;
  match err with
  | Some err => mret (None, Some err)
  | None => mret (tmpl, None)
  end.

(** The callback of [find]; [files] is the variable it closes over. *)
Definition find_fn (ext : string) : Walk.WalkDirFunc (list string) :=
  λ call files,
    match call with
    | Walk.Failure _ _ e => (files, Some e)
    | Walk.Visit s d =>
        if decide (Path.Ext (fs.Name d) = ext)
        then (files ++ [s], None)
        else (files, None)
    end.

Definition find (root ext : string) : list string * option error :=
  let files := [] in
  let '(files, err) := Walk.WalkDir (find_fn ext) lstat root files in
  match err with
  | Some err => ([], Some err)
  | None => (files, None)
  end.

Definition addTemplate (path fileType : string) : list string * option error :=
  let '(files, err) := find path ".tmpl" in
  match err with
  | Some err => ([], Some err)
  | None =>
      let templates := [] in
      let templates :=
        foldl (λ templates x,
                 if Strings.Contains x fileType then templates ++ [x]
                 else templates) templates files in
      (templates, None)
  end.

(** The loop of [LoadLayoutsAndPartials] over the file types left, with
    the [templates] collected so far. *)
Fixpoint load_loop (dir : string) (fileTypes templates : list string)
  : list string * option error :=
  match fileTypes with
  | [] => (templates, None)
  | t :: rest =>
      let '(files, err) := addTemplate dir t in
      match err with
      | Some err => (templates, Some err)
      | None => load_loop dir rest (templates ++ files)
      end
  end.

(** [LoadLayoutsAndPartials] sets the [Partials] field to the files under
    [TemplateDir] of the given types. *)
Definition LoadLayoutsAndPartials (fileTypes : list string) : Go (option error) :=
  emit (Stdout (Sprintln ["159 - page-LoadLayoutsAndPartials: "; Sprint_slice fileTypes]));;
  r ← receiver;
  let '(templates, err) := load_loop (TemplateDir r) fileTypes [] in
  match err with
  | Some err => mret (Some err)
  | None =>
      assign (mkRender _ (TemplateDir r) (Functions r) (UseCache r)
                (TemplateMap r) templates (Debug r));;
      r ← receiver;
      emit (Stdout (Sprintln ["171 - page-LoadLayoutsAndPartials: "; Sprint_slice (Partials r)]));;
      mret None
  end.

(** [New] returns a [Render] populated with the defaults. *)
Definition New : Render :=
  mkRender _ EmptyString ∅ true (Some ∅) [] false.


(** *** Reading runs *)

(** The files [buildTemplateFromDisk] lists for [t]. *)
Definition build_files (r : Render) (t : string) : list string :=
  Partials r ++ [Path.Join (TemplateDir r) t].

(** The calls of the compile capability in a trace. *)
Fixpoint parse_calls (tr : list Event) : list (string * list string) :=
  match tr with
  | [] => []
  | Parsed name files :: tr => (name, files) :: parse_calls tr
  | _ :: tr => parse_calls tr
  end.

(** The keys read from the cache map in a trace. *)
Fixpoint map_reads (tr : list Event) : list string :=
  match tr with
  | [] => []
  | MapRead key :: tr => key :: map_reads tr
  | _ :: tr => map_reads tr
  end.

(** The part of a trace before the first call of the compile
    capability. *)
Fixpoint before_parse (tr : list Event) : list Event :=
  match tr with
  | [] => []
  | Parsed _ _ :: _ => []
  | e :: tr => e :: before_parse tr
  end.

(** The accesses of the cache map. *)
Definition is_read (e : Event) : bool :=
  match e with MapRead _ => true | _ => false end.
Definition is_write (e : Event) : bool :=
  match e with MapWrite _ => true | _ => false end.

(** Every event of [tr] that [access] selects happens between a [Lock] and
    the next [Unlock]; [held] says whether the lock is held when [tr]
    starts. *)
Fixpoint guarded (access : Event → bool) (held : bool) (tr : list Event) : bool :=
  match tr with
  | [] => true
  | Lock :: tr => guarded access true tr
  | Unlock :: tr => guarded access false tr
  | e :: tr => (negb (access e) || held) && guarded access held tr
  end.

(** Whether the cache map has an entry under [key]. *)
Definition has_entry (r : Render) (key : string) : bool :=
  match TemplateMap r with
  | Some m => bool_decide (is_Some (m !! key))
  | None => false
  end.

(** The compiled set the cache map holds under [key]: none when the map
    is nil, has no entry, or the entry is a nil pointer. *)
Definition cached (r : Render) (key : string) : option Template :=
  m ← TemplateMap r; v ← m !! key; v.

(** The receiver with another cache map, the other fields as they are. *)
Definition with_TemplateMap (r : Render)
    (m : option (gmap string (option Template))) : Render :=
  mkRender _ (TemplateDir r) (Functions r) (UseCache r) m (Partials r) (Debug r).

(** The receiver with another list of partials. *)
Definition with_Partials (r : Render) (l : list string) : Render :=
  mkRender _ (TemplateDir r) (Functions r) (UseCache r) (TemplateMap r) l (Debug r).

(** The template a successful [ParseFiles] for [t] returns. *)
Definition compiled (r : Render) (t : string) (defs : Defs) : Template :=
  {| template.Name := t; template.FuncReg := Functions r; template.Set_ := defs |}.

(** The events up to the call of the compile capability. *)
Definition build_prefix (r : Render) (t : string) : list Event :=
  [ Stdout (Sprintln ["139 - page-buildTemplateFromDisk.t: "; t]);
    Parsed t (build_files r t) ].

(** The events from the call of the compile capability to the read of
    line 173. *)
Definition build_stored (r : Render) (t : string) : list Event :=
  build_prefix r t ++ [Lock; MapWrite t; Unlock; MapRead "about.page.tmpl"].

(** The events after the read of line 173, when it finds [tpl]. *)
Definition build_suffix (r : Render) (t : string) (tpl : Template) : list Event :=
  Stdout (Sprintln ["174 - page-tpl.DefinedTemplates(): "; defined_templates tpl]) ::
  (if Debug r then [Logged (Sprintln ["Reading template"; t; "from disk"])] else []).

(** The events of the cache lookup in [buildTemplate]. *)
Definition cache_events (r : Render) (t : string) : list Event :=
  if UseCache r then
    MapRead t ::
    (if has_entry r t && Debug r
     then [Logged (Sprintln ["Reading template"; t; "from cache"])] else [])
  else [].

(** What [buildTemplate] makes of the outcome of the disk build. *)
Definition after_build (o : Outcome (option Template * option error))
  : Outcome (option Template * option error) :=
  match o with
  | Returned (_, Some err) s =>
      Returned (None, Some err)
        (mkState _ (ren s) (trace s ++ [Logged "Error building from disk"]))
  | Returned (newTemplate, None) s => Returned (newTemplate, None) s
  | Panicked p s => Panicked p s
  end.

(** The events a run from [s] added to the trace. *)
Definition new_events {A} (s : State) (o : Outcome A) : list Event :=
  drop (length (trace s)) (trace (final o)).

(** Whether the lock is held after the events of [tr], when it is [held]
    before them. *)
Fixpoint held_after (held : bool) (tr : list Event) : bool :=
  match tr with
  | [] => held
  | Lock :: tr => held_after true tr
  | Unlock :: tr => held_after false tr
  | _ :: tr => held_after held tr
  end.

(** The receiver with another [Debug] flag. *)
Definition with_Debug (r : Render) (b : bool) : Render :=
  mkRender _ (TemplateDir r) (Functions r) (UseCache r) (TemplateMap r) (Partials r) b.

(** What a run ended with: the values returned, or the panic. *)
Definition result_of {A} (o : Outcome A) : A + Panic :=
  match o with Returned a _ => inl a | Panicked p _ => inr p end.

(** The lines of the log. *)
Definition is_log (e : Event) : bool :=
  match e with Logged _ => true | _ => false end.

(** A trace without the two lines that debug mode logs for [t]. *)
Fixpoint without_debug (t : string) (tr : list Event) : list Event :=
  match tr with
  | [] => []
  | Logged line :: tr =>
      if decide (line = Sprintln ["Reading template"; t; "from cache"] ∨
                 line = Sprintln ["Reading template"; t; "from disk"])
      then without_debug t tr
      else Logged line :: without_debug t tr
  | e :: tr => e :: without_debug t tr
  end.

(** A name part without a dot and without a separator. *)
Fixpoint plain (e : string) : bool :=
  match e with
  | EmptyString => true
  | String c r =>
      negb (bool_decide (c = "."%char)) && negb (bool_decide (c = Path.Separator)) &&
      plain r
  end.

(** How often [x] occurs in [l]. *)
Definition occurrences (x : string) (l : list string) : nat :=
  length (filter (λ y, y = x) l).

End Package.

Arguments buildTemplateFromDisk : simpl never.
Arguments buildTemplate : simpl never.

(** ** The program of [main.go] *)

Section Main.
Context `{Capabilities}.

(** [&Data{Data: data}] with [data["payload"] = text], as the engine sees
    it. *)
Variable payload : string → Data.

Definition StatusBadRequest : nat := 400.

(** The [Render] that [main] creates. *)
Definition main_render : Render :=
  mkRender _ "./templates" ∅ true (Some ∅) [] true.

(** The start of [main]: loading the layouts; [log.Fatal(err)] prints the
    error and the process exits. *)
Definition main_load : Go (option error) :=
  err ← LoadLayoutsAndPartials [".layout"];
  match err with
  | Some err => emit (Logged (Sprintln [err]));; mret (Some err)
  | None => mret None
  end.

(** The handler of [/]. *)
Definition handle_root (w : ResponseWriter) : Go ResponseWriter :=
  let data := payload "This is MY passed data." in
  '(w, err) ← Show w "home.page.gohtml" data;
  match err with
  | Some err =>
      let w := w ++ [HttpError err StatusBadRequest] in
      emit (Logged (Sprintln [err]));;
      mret w
  | None => mret w
  end.

(** The handler of [/string]. *)
Definition handle_string (w : ResponseWriter) : Go ResponseWriter :=
  let data := payload "This is passed data." in
  '(out, err) ← String_ "home.page.gohtml" data;
  match err with
  | Some err =>
      let w := w ++ [HttpError err StatusBadRequest] in
      emit (Logged (Sprintln [err]));;
      mret w
  | None =>
      emit (Logged (Sprintln [out]));;
      let w := w ++ [Write "Check the console; you should see html"] in
      mret w
  end.

End Main.

(** ** A small world to run the package in *)

Module Demo.

(** The files of a [templates] directory, and two roots that fail. *)
Definition templates : fs.Node :=
  fs.Dir "templates"
    [ fs.File "about.page.tmpl"; fs.File "base.layout.tmpl";
      fs.File "css.partial.tmpl"; fs.File "footer.partial.tmpl";
      fs.File "home.page.tmpl"; fs.File "layout.txt";
      fs.Dir "mail" [ fs.File "mail.layout.tmpl" ] None ] None.

Definition stat (root : string) : error + fs.Node :=
  if decide (root = "./templates") then inr templates
  else if decide (root = "./locked") then
    inr (fs.Dir "locked" [ fs.File "x.layout.tmpl" ] (Some "open ./locked: permission denied"))
  else inl ("lstat " +:+ root +:+ ": no such file or directory").

Definition on_disk : list string :=
  [ "templates/about.page.tmpl"; "templates/base.layout.tmpl";
    "templates/css.partial.tmpl"; "templates/footer.partial.tmpl";
    "templates/home.page.tmpl"; "templates/mail/mail.layout.tmpl" ].

(** Parsing keeps the names of the files read; a file that is not there
    fails the parse. *)
Fixpoint parse (files : list string) : error + list string :=
  match files with
  | [] => inr []
  | f :: rest =>
      if decide (f ∈ on_disk) then
        match parse rest with
        | inr defs => inr (f :: defs)
        | inl err => inl err
        end
      else inl ("open " +:+ f +:+ ": no such file or directory")
  end.

Definition run (t : template.Template nat (list string)) (entry data : string)
  : string * option error :=
  if decide (data = "boom") then ("<html>", Some "template: execution failed")
  else (entry +:+ ": " +:+ data, None).

Definition world : Capabilities := {|
  Func := nat;
  Data := string;
  Defs := list string;
  no_defs := [];
  parse_files := λ _ _ files, parse files;
  defined_templates := λ t, "; defined templates are: " +:+ Strings.Join (template.Set_ t) ", ";
  execute := λ t data, run t "(default)" data;
  execute_template := λ t name data, run t name data;
  lstat := stat;
|}.

(** The [Render] of [main.go], with the cache switched on or off and a
    given cache map. *)
Definition render (useCache : bool) (m : option (gmap string (option (template.Template (@Func world) (@Defs world)))))
    (partials : list string) : @Render world :=
  @mkRender world "./templates" ∅ useCache m partials true.

Definition start (r : @Render world) : @State world := @mkState world r [].

Definition home : string := "home.page.tmpl".
Definition about : string := "about.page.tmpl".

(** The set a build of [t] compiles when no partials are loaded. *)
Definition page (t : string) : template.Template (@Func world) (@Defs world) :=
  {| template.Name := t; template.FuncReg := ∅;
     template.Set_ := ["templates/" +:+ t] |}.

(** Starting states: an empty cache map, one that holds [t] already, and
    a nil one. *)
Definition fresh (useCache : bool) : @State world :=
  start (render useCache (Some ∅) []).
Definition holding (t : string) (useCache : bool) : @State world :=
  start (render useCache (Some {[ t := Some (page t) ]}) []).
Definition unallocated (useCache : bool) : @State world :=
  start (render useCache None []).

(** A world like [world] that also has the page [main.go] asks for. *)
Definition site : Capabilities := {|
  Func := nat;
  Data := string;
  Defs := list string;
  no_defs := [];
  parse_files := λ _ _ files,
    if decide (files = ["templates/base.layout.tmpl"; "templates/home.page.gohtml"])
    then inr files else inl "open: no such file or directory";
  defined_templates := λ t, "; defined templates are: " +:+ Strings.Join (template.Set_ t) ", ";
  execute := λ t data, run t "(default)" data;
  execute_template := λ t name data, run t name data;
  lstat := λ root,
    if decide (root = "./templates")
    then inr (fs.Dir "templates"
                [ fs.File "base.layout.tmpl"; fs.File "home.page.gohtml" ] None)
    else inl ("lstat " +:+ root +:+ ": no such file or directory");
|}.

(** A [Render] whose [TemplateDir] is not there. *)
Definition lost : @State world :=
  start (@mkRender world "./missing" ∅ true (Some ∅) ["old.partial.tmpl"] false).

End Demo.

(** * Properties *)

(** ** The model on the files of the repository *)

Example Ext_tmpl : Path.Ext "base.layout.tmpl" = ".tmpl".
Proof. reflexivity. Qed.

Example Ext_gohtml : Path.Ext "home.page.gohtml" = ".gohtml".
Proof. reflexivity. Qed.

Example Ext_last_element : Path.Ext "a.b/c" = EmptyString.
Proof. reflexivity. Qed.

Example Join_cleans : Path.Join "./templates" "home.page.tmpl" = "templates/home.page.tmpl".
Proof. reflexivity. Qed.

Example Join_dotdot : Path.Join "a/b/" "../c" = "a/c" ∧ Path.Join "/a" "../../c" = "/c".
Proof. split; reflexivity. Qed.

Example Contains_marker :
  Strings.Contains "templates/base.layout.tmpl" ".layout" = true ∧
  Strings.Contains "templates/base.layout.tmpl" ".partial" = false.
Proof. split; reflexivity. Qed.

(** ** Running the monad *)

Section Runs.
Context `{Capabilities}.

Lemma run_bind {A B} (m : Go A) (f : A → Go B) s :
  (m ≫= f) s =
  match m s with
  | Returned a s' => f a s'
  | Panicked p s' => Panicked p s'
  end.
Proof. reflexivity. Qed.

Lemma run_ret {A} (a : A) s : (mret a : Go A) s = Returned a s.
Proof. reflexivity. Qed.

End Runs.

(** One step of a run, and a run to its end. *)
Ltac go_step :=
  first
    [ rewrite run_bind
    | rewrite run_ret
    | progress (unfold emit, receiver, assign, panic, when)
    | progress simpl ].
Ltac go := repeat go_step.

Section Builds.
Context `{Capabilities}.

Lemma Funcs_New funcMap t :
  Funcs funcMap (template_New t) =
  {| template.Name := t; template.FuncReg := funcMap; template.Set_ := no_defs |}.
Proof. unfold Funcs, template_New; simpl. by rewrite (right_id_L ∅ (∪)). Qed.

Lemma parse_calls_app tr1 tr2 :
  parse_calls (tr1 ++ tr2) = parse_calls tr1 ++ parse_calls tr2.
Proof.
  induction tr1 as [|e tr1 IH]; [done|].
  destruct e; simpl; by rewrite ?IH.
Qed.

Lemma map_reads_app tr1 tr2 :
  map_reads (tr1 ++ tr2) = map_reads tr1 ++ map_reads tr2.
Proof.
  induction tr1 as [|e tr1 IH]; [done|].
  destruct e; simpl; by rewrite ?IH.
Qed.

(** *** The three ways [buildTemplateFromDisk] ends *)

Lemma build_parse_error s t err :
  parse_files t (Functions (ren s)) (build_files (ren s) t) = inl err →
  buildTemplateFromDisk t s =
  Returned (None, Some err)
    (mkState _ (ren s) (trace s ++ build_prefix (ren s) t)).
Proof.
  intros Hparse. destruct s as [r tr]; simpl in *.
  unfold buildTemplateFromDisk, ParseFiles. go.
  rewrite ?(right_id_L ∅ (∪)). fold (build_files r t). rewrite Hparse. go.
  by rewrite <- ?app_assoc.
Qed.

Lemma build_nil_map s t defs :
  parse_files t (Functions (ren s)) (build_files (ren s) t) = inr defs →
  TemplateMap (ren s) = None →
  buildTemplateFromDisk t s =
  Panicked NilMapAssignment
    (mkState _ (ren s) (trace s ++ build_prefix (ren s) t ++ [Lock; MapWrite t])).
Proof.
  intros Hparse Hnil. destruct s as [r tr]; simpl in *.
  unfold buildTemplateFromDisk, ParseFiles. go.
  rewrite ?(right_id_L ∅ (∪)). fold (build_files r t). rewrite Hparse. go.
  unfold map_store. go. rewrite Hnil. go.
  by rewrite <- ?app_assoc.
Qed.

Lemma build_stored_map s t defs m :
  parse_files t (Functions (ren s)) (build_files (ren s) t) = inr defs →
  TemplateMap (ren s) = Some m →
  let r := ren s in
  let tm := compiled r t defs in
  let r' := with_TemplateMap r (Some (<[t := Some tm]> m)) in
  buildTemplateFromDisk t s =
  match cached r' "about.page.tmpl" with
  | Some tpl =>
      Returned (Some tm, None)
        (mkState _ r' (trace s ++ build_stored r t ++ build_suffix r t tpl))
  | None =>
      Panicked NilPointerDereference
        (mkState _ r' (trace s ++ build_stored r t))
  end.
Proof.
  intros Hparse Hmap. destruct s as [r tr]; simpl in *.
  unfold buildTemplateFromDisk, ParseFiles. go.
  rewrite ?(right_id_L ∅ (∪)). fold (build_files r t). rewrite Hparse. go.
  unfold map_store. go. rewrite Hmap. go.
  unfold map_index, map_lookup. go.
  unfold cached, with_TemplateMap, compiled; simpl.
  destruct (<[t:=_]> m !! "about.page.tmpl") as [[tpl|]|] eqn:Habout; go;
    unfold build_stored, build_suffix, build_prefix;
    rewrite <- ?app_assoc; simpl; try done.
  destruct (Debug r); go; rewrite <- ?app_assoc; done.
Qed.

End Builds.

Section Resolution.
Context `{Capabilities}.

Lemma new_events_app {A} s (o : Outcome A) evs :
  trace (final o) = trace s ++ evs → new_events s o = evs.
Proof. unfold new_events. intros ->. apply drop_app_length. Qed.

(** The cache is switched on and holds a compiled set: it is returned. *)
Lemma resolve_hit s t tm :
  UseCache (ren s) = true →
  cached (ren s) t = Some tm →
  buildTemplate t s =
  Returned (Some tm, None)
    (mkState _ (ren s) (trace s ++ cache_events (ren s) t)).
Proof.
  intros Huse Hc. destruct s as [r tr]; simpl in *.
  unfold buildTemplate, map_lookup, cache_events, has_entry. go.
  unfold cached in Hc. rewrite Huse. go.
  destruct (TemplateMap r) as [m|]; [|done]. simpl in Hc.
  destruct (m !! t) as [v|] eqn:Hm; [|done]. simpl in Hc. subst v.
  rewrite bool_decide_eq_true_2 by eauto. go.
  destruct (Debug r); go; by rewrite <- ?app_assoc.
Qed.

(** Otherwise the set is built from disk. *)
Lemma resolve_miss s t :
  (if UseCache (ren s) then cached (ren s) t else None) = None →
  buildTemplate t s =
  after_build
    (buildTemplateFromDisk t
       (mkState _ (ren s)
          (trace s ++ cache_events (ren s) t ++ [Logged (Sprintln ["t"; t])]))).
Proof.
  intros Hc. destruct s as [r tr]; simpl in *.
  unfold buildTemplate, map_lookup, cache_events, has_entry, cached in *. go.
  destruct (UseCache r); go;
    [destruct (TemplateMap r) as [m|]; simpl in *; go;
      [destruct (m !! t) as [[tm|]|] eqn:Hm; simpl in *; go; [done|..]|]|];
    rewrite ?bool_decide_eq_true_2 by eauto;
    rewrite ?bool_decide_eq_false_2 by (intros [? ?]; done);
    destruct (Debug r); go; rewrite <- ?app_assoc; simpl;
    destruct (buildTemplateFromDisk t _) as [[nt [e|]] s'|p s']; go; done.
Qed.

(** A disk build calls the compile capability once, however it ends. *)
Lemma build_parse_calls s t :
  parse_calls (trace (final (buildTemplateFromDisk t s))) =
  parse_calls (trace s) ++ [(t, build_files (ren s) t)].
Proof.
  destruct (parse_files t (Functions (ren s)) (build_files (ren s) t))
    as [err|defs] eqn:Hparse.
  - rewrite (build_parse_error _ _ _ Hparse). simpl.
    by rewrite parse_calls_app.
  - destruct (TemplateMap (ren s)) as [m|] eqn:Hmap.
    + rewrite (build_stored_map _ _ _ _ Hparse Hmap).
      destruct (cached _ _) as [tpl|]; simpl;
        rewrite ?parse_calls_app; simpl; rewrite ?app_nil_r; [|done].
      unfold build_suffix. destruct (Debug (ren s)); simpl; by rewrite ?app_nil_r.
    + rewrite (build_nil_map _ _ _ Hparse Hmap). simpl.
      by rewrite !parse_calls_app.
Qed.

Lemma after_build_trace o :
  parse_calls (trace (final (after_build o))) = parse_calls (trace (final o)).
Proof.
  destruct o as [[nt [e|]] s'|p s']; simpl; [|done..].
  rewrite parse_calls_app. simpl. by rewrite app_nil_r.
Qed.

Lemma after_build_ren o : ren (final (after_build o)) = ren (final o).
Proof. by destruct o as [[nt [e|]] s'|p s']. Qed.

Lemma cache_events_no_parse r t : parse_calls (cache_events r t) = [].
Proof.
  unfold cache_events. destruct (UseCache r); [|done]. simpl.
  by destruct (has_entry r t && Debug r).
Qed.

Lemma resolve_miss_parse_calls s t :
  (if UseCache (ren s) then cached (ren s) t else None) = None →
  parse_calls (trace (final (buildTemplate t s))) =
  parse_calls (trace s) ++ [(t, build_files (ren s) t)].
Proof.
  intros Hc. rewrite (resolve_miss _ _ Hc), after_build_trace, build_parse_calls.
  simpl. rewrite !parse_calls_app, cache_events_no_parse. simpl.
  by rewrite app_nil_r.
Qed.

End Resolution.

(** ** The cache: writes, reads and resolution *)

Section Cache.
Context `{Capabilities}.

Lemma map_reads_cache_events r t :
  map_reads (cache_events r t) = if UseCache r then [t] else [].
Proof.
  unfold cache_events. destruct (UseCache r); [|done]. simpl.
  by destruct (has_entry r t && Debug r).
Qed.

Lemma before_parse_app_parsed tr name files rest :
  parse_calls tr = [] →
  before_parse (tr ++ Parsed name files :: rest) = tr.
Proof.
  induction tr as [|e tr IH]; [done|].
  destruct e; simpl; intros Hp; try done; by rewrite IH.
Qed.

Lemma before_parse_no_parse tr : parse_calls tr = [] → before_parse tr = tr.
Proof.
  induction tr as [|e tr IH]; [done|].
  destruct e; simpl; intros Hp; try done; by rewrite IH.
Qed.

(** Every disk build extends the trace by the events up to the compile
    call and then some more. *)
Lemma build_trace s t :
  ∃ rest, trace (final (buildTemplateFromDisk t s)) =
          trace s ++ build_prefix (ren s) t ++ rest.
Proof.
  destruct (parse_files t (Functions (ren s)) (build_files (ren s) t))
    as [err|defs] eqn:Hparse.
  - rewrite (build_parse_error _ _ _ Hparse). exists []. by rewrite app_nil_r.
  - destruct (TemplateMap (ren s)) as [m|] eqn:Hmap.
    + rewrite (build_stored_map _ _ _ _ Hparse Hmap).
      unfold build_stored. destruct (cached _ _) as [tpl|]; simpl; eauto.
    + rewrite (build_nil_map _ _ _ Hparse Hmap). simpl. eauto.
Qed.

Lemma after_build_trace_app o :
  ∃ rest, trace (final (after_build o)) = trace (final o) ++ rest.
Proof.
  destruct o as [[nt [e|]] s'|p s']; simpl; eauto; exists []; by rewrite app_nil_r.
Qed.

(** The reads of the cache map that come before any build. *)
Lemma resolve_reads_before_parse s t :
  map_reads (before_parse (new_events s (buildTemplate t s))) =
  if UseCache (ren s) then [t] else [].
Proof.
  destruct (if UseCache (ren s) then cached (ren s) t else None) as [tm|] eqn:Hc.
  - destruct (UseCache (ren s)) eqn:Huse; [|done].
    rewrite (resolve_hit _ _ _ Huse Hc).
    erewrite new_events_app by reflexivity.
    rewrite before_parse_no_parse by apply cache_events_no_parse.
    by rewrite map_reads_cache_events, Huse.
  - rewrite (resolve_miss _ _ Hc).
    destruct (after_build_trace_app (buildTemplateFromDisk t
      (mkState _ (ren s) (trace s ++ cache_events (ren s) t ++ [Logged (Sprintln ["t"; t])]))))
      as [rest1 Hrest1].
    destruct (build_trace
      (mkState _ (ren s) (trace s ++ cache_events (ren s) t ++ [Logged (Sprintln ["t"; t])])) t)
      as [rest2 Hrest2].
    rewrite Hrest2 in Hrest1. simpl in Hrest1.
    erewrite new_events_app; last first.
    { rewrite Hrest1. rewrite <- !app_assoc. reflexivity. }
    unfold build_prefix. simpl.
    replace (cache_events (ren s) t ++
             Logged (Sprintln ["t"; t]) ::
             Stdout (Sprintln ["139 - page-buildTemplateFromDisk.t: "; t]) ::
             Parsed t (build_files (ren s) t) :: rest2 ++ rest1)
      with ((cache_events (ren s) t ++
             [Logged (Sprintln ["t"; t]);
              Stdout (Sprintln ["139 - page-buildTemplateFromDisk.t: "; t])]) ++
             Parsed t (build_files (ren s) t) :: (rest2 ++ rest1))
      by (by rewrite <- app_assoc).
    rewrite before_parse_app_parsed.
    + rewrite map_reads_app, map_reads_cache_events. simpl. by rewrite app_nil_r.
    + rewrite parse_calls_app, cache_events_no_parse. done.
Qed.

(** The receiver after a disk build whose compile step succeeded. *)
Lemma build_stores s t defs :
  parse_files t (Functions (ren s)) (build_files (ren s) t) = inr defs →
  ren (final (buildTemplateFromDisk t s)) =
  with_TemplateMap (ren s)
    (insert t (Some (compiled (ren s) t defs)) <$> TemplateMap (ren s)).
Proof.
  intros Hparse. destruct (TemplateMap (ren s)) as [m|] eqn:Hmap.
  - rewrite (build_stored_map _ _ _ _ Hparse Hmap).
    by destruct (cached _ _).
  - rewrite (build_nil_map _ _ _ Hparse Hmap). simpl.
    unfold with_TemplateMap. rewrite <- Hmap. by destruct (ren s).
Qed.

End Cache.

(** X23.  Whenever the compile step of a build from disk succeeds on an
    allocated cache map, the compiled set is stored under key [t],
    overwriting any prior entry for that key and leaving the other entries
    and fields as they are, whether [UseCache] is true or false and however
    the call ends after the store (a nil cache map stays nil).  Resolution
    through [buildTemplate] stores likewise whenever it builds, and before
    any build it reads the cache map, under key [t], only when [UseCache]
    is true. *)
Theorem build_stores_whatever_UseCache `{Capabilities} (s : State) (t : string) (defs : Defs) :
  parse_files t (Functions (ren s)) (build_files (ren s) t) = inr defs →
  let r := ren s in
  let stored :=
    with_TemplateMap r (insert t (Some (compiled r t defs)) <$> TemplateMap r) in
  ren (final (buildTemplateFromDisk t s)) = stored ∧
  (∀ m, TemplateMap r = Some m →
        cached (ren (final (buildTemplateFromDisk t s))) t = Some (compiled r t defs) ∧
        ∀ k, k ≠ t →
          cached (ren (final (buildTemplateFromDisk t s))) k = cached r k) ∧
  ((UseCache r = false ∨ cached r t = None) →
     ren (final (buildTemplate t s)) = stored) ∧
  map_reads (before_parse (new_events s (buildTemplate t s))) =
    (if UseCache r then [t] else []).
Proof.
  intros Hparse r stored. split; [by apply build_stores|]. split; [|split].
  - intros m Hm. rewrite (build_stores _ _ _ Hparse).
    unfold cached, with_TemplateMap; simpl. fold r. rewrite Hm; simpl. split.
    + by rewrite lookup_insert_eq.
    + intros k Hk. by rewrite lookup_insert_ne.
  - intros Hmiss.
    assert ((if UseCache r then cached r t else None) = None) as Hc.
    { destruct Hmiss as [-> | ->]; [done|by destruct (UseCache r)]. }
    rewrite (resolve_miss _ _ Hc), after_build_ren.
    by rewrite (build_stores _ _ defs).
  - apply resolve_reads_before_parse.
Qed.

(** C1 fails on the code: the cache map is to be read only when [UseCache]
    is true, and the read left at line 173 is made whatever the flag says,
    for the fixed key [about.page.tmpl] where the comment of line 172 names
    the set just built.  With [UseCache] false, a build of [home.page.tmpl]
    on an empty cache map reads that key and panics on the nil it finds; on
    a map that holds [about.page.tmpl] the same call returns, so what the
    cache holds decides the outcome of a resolution that should not look at
    it. *)
Lemma cache_read_with_UseCache_off :
  UseCache (ren (Demo.fresh false)) = false ∧
  map_reads (new_events (Demo.fresh false)
               (buildTemplate Demo.home (Demo.fresh false))) = ["about.page.tmpl"] ∧
  (∃ s', buildTemplate Demo.home (Demo.fresh false) =
         Panicked NilPointerDereference s') ∧
  (∃ s', buildTemplate Demo.home (Demo.holding Demo.about false) =
         Returned (Some (Demo.page Demo.home), None) s').
Proof.
  split; [reflexivity|]. split; [reflexivity|]. split.
  - exists (final (buildTemplate Demo.home (Demo.fresh false))). reflexivity.
  - exists (final (buildTemplate Demo.home (Demo.holding Demo.about false))).
    reflexivity.
Qed.

Lemma build_stores_whatever_UseCache_witness :
  parse_files (Capabilities := Demo.world) Demo.home ∅
    (build_files (ren (Demo.fresh false)) Demo.home)
  = inr ["templates/home.page.tmpl"] ∧
  cached (ren (final (buildTemplateFromDisk Demo.home (Demo.fresh false)))) Demo.home
  = Some (Demo.page Demo.home).
Proof.
  split; [reflexivity|].
  exact (proj1 (proj1 (proj2
    (build_stores_whatever_UseCache (Demo.fresh false) Demo.home
       ["templates/home.page.tmpl"] eq_refl)) ∅ eq_refl)).
Defined.

(** C2 (amended).  For every [Render] and every template name [t], but for
    [t = about.page.tmpl] on an allocated cache map: when the compile step
    of [buildTemplateFromDisk t] succeeds and the cache map holds no
    template under [about.page.tmpl] (no entry, or a nil one), the call
    does not return.  On an allocated map it stores the entry for [t],
    reads [TemplateMap["about.page.tmpl"]], gets nil and panics in
    [DefinedTemplates]; on a nil map, for every [t], the assignment itself
    panics. *)
Theorem build_panics_without_about `{Capabilities} (s : State) (t : string) (defs : Defs) :
  t ≠ "about.page.tmpl" ∨ TemplateMap (ren s) = None →
  parse_files t (Functions (ren s)) (build_files (ren s) t) = inr defs →
  cached (ren s) "about.page.tmpl" = None →
  let r := ren s in
  buildTemplateFromDisk t s =
  match TemplateMap r with
  | Some m =>
      Panicked NilPointerDereference
        (mkState _ (with_TemplateMap r (Some (<[t := Some (compiled r t defs)]> m)))
           (trace s ++ build_stored r t))
  | None =>
      Panicked NilMapAssignment
        (mkState _ r (trace s ++ build_prefix r t ++ [Lock; MapWrite t]))
  end.
Proof.
  intros Ht Hparse Habsent r. subst r.
  destruct (TemplateMap (ren s)) as [m|] eqn:Hmap.
  - destruct Ht as [Ht|Ht]; [|done].
    rewrite (build_stored_map _ _ _ _ Hparse Hmap).
    unfold cached, with_TemplateMap in *; simpl. rewrite Hmap in Habsent.
    simpl in Habsent. rewrite lookup_insert_ne by done.
    by rewrite Habsent.
  - by apply (build_nil_map _ _ defs).
Qed.

(** C2, as stated for every [t], fails at [t = about.page.tmpl] on an
    allocated cache map: the entry read at line 173 is then the one just
    stored, and the call returns. *)
Lemma about_build_returns :
  has_entry (ren (Demo.fresh true)) "about.page.tmpl" = false ∧
  parse_files (Capabilities := Demo.world) "about.page.tmpl" ∅
    (build_files (ren (Demo.fresh true)) "about.page.tmpl")
  = inr ["templates/about.page.tmpl"] ∧
  buildTemplateFromDisk "about.page.tmpl" (Demo.fresh true) =
  Returned (Some (Demo.page "about.page.tmpl"), None)
    (mkState _
       (Demo.render true
          (Some {[ "about.page.tmpl" := Some (Demo.page "about.page.tmpl") ]}) [])
       [ Stdout "139 - page-buildTemplateFromDisk.t:  about.page.tmpl";
         Parsed "about.page.tmpl" ["templates/about.page.tmpl"];
         Lock; MapWrite "about.page.tmpl"; Unlock; MapRead "about.page.tmpl";
         Stdout "174 - page-tpl.DefinedTemplates():  ; defined templates are: templates/about.page.tmpl";
         Logged "Reading template about.page.tmpl from disk" ]).
Proof. split; [reflexivity|]. split; reflexivity. Qed.

Lemma build_panics_without_about_witness :
  cached (ren (Demo.fresh true)) "about.page.tmpl" = None ∧
  buildTemplateFromDisk Demo.home (Demo.fresh true) =
  Panicked NilPointerDereference
    (mkState _
       (Demo.render true (Some {[ Demo.home := Some (Demo.page Demo.home) ]}) [])
       [ Stdout "139 - page-buildTemplateFromDisk.t:  home.page.tmpl";
         Parsed "home.page.tmpl" ["templates/home.page.tmpl"];
         Lock; MapWrite "home.page.tmpl"; Unlock; MapRead "about.page.tmpl" ]) ∧
  TemplateMap (ren (Demo.unallocated true)) = None ∧
  buildTemplateFromDisk Demo.about (Demo.unallocated true) =
  Panicked NilMapAssignment
    (mkState _ (Demo.render true None [])
       [ Stdout "139 - page-buildTemplateFromDisk.t:  about.page.tmpl";
         Parsed "about.page.tmpl" ["templates/about.page.tmpl"];
         Lock; MapWrite "about.page.tmpl" ]).
Proof.
  assert (Demo.home ≠ "about.page.tmpl") as Hhome by done.
  split; [reflexivity|]. split; [|split; [reflexivity|]].
  - exact (build_panics_without_about (Demo.fresh true) Demo.home
             ["templates/home.page.tmpl"] (or_introl Hhome) eq_refl eq_refl).
  - exact (build_panics_without_about (Demo.unallocated true) Demo.about
             ["templates/about.page.tmpl"] (or_intror eq_refl) eq_refl eq_refl).
Defined.

(** C3.  [buildTemplate] returns the cached entry exactly when [UseCache] is
    true and the cache map holds a compiled set under [t], and then nothing
    is built; otherwise it builds from disk, once, also when [UseCache] is
    false and an entry for [t] exists.  [Show], [String] and [GetTemplate]
    resolve through it. *)
Theorem resolution_cache_or_disk `{Capabilities} (s : State) (t : string) :
  let r := ren s in
  let o := buildTemplate t s in
  (∀ tm, UseCache r = true → cached r t = Some tm →
     o = Returned (Some tm, None) (mkState _ r (trace s ++ cache_events r t))) ∧
  ((UseCache r = false ∨ cached r t = None) →
     o = after_build
           (buildTemplateFromDisk t
              (mkState _ r (trace s ++ cache_events r t ++ [Logged (Sprintln ["t"; t])]))) ∧
     parse_calls (trace (final o)) =
       parse_calls (trace s) ++ [(t, build_files r t)]) ∧
  (parse_calls (trace (final o)) = parse_calls (trace s) ↔
     UseCache r = true ∧ is_Some (cached r t)) ∧
  GetTemplate t s = o ∧
  (∀ w td, parse_calls (trace (final (Show w t td s))) = parse_calls (trace (final o))) ∧
  (∀ td, parse_calls (trace (final (String_ t td s))) = parse_calls (trace (final o))).
Proof.
  intros r o. subst r o.
  assert (∀ b c, (b = false ∨ c = None) →
          (if b then c else None) = (None : option Template)) as Hnone.
  { intros b c [-> | ->]; [done|by destruct b]. }
  split; [intros; by apply resolve_hit|]. split; [|split; [|split; [|split]]].
  - intros Hmiss. split.
    + by apply resolve_miss, Hnone.
    + by apply resolve_miss_parse_calls, Hnone.
  - split.
    + intros Hsame.
      destruct (UseCache (ren s)) eqn:Huse;
        [destruct (cached (ren s) t) as [tm|] eqn:Hc; [eauto|]|];
        rewrite resolve_miss_parse_calls in Hsame by (by rewrite Huse, ?Hc);
        apply (f_equal length) in Hsame; rewrite length_app in Hsame;
        simpl in Hsame; lia.
    + intros [Huse [tm Hc]]. rewrite (resolve_hit _ _ _ Huse Hc). simpl.
      rewrite parse_calls_app, cache_events_no_parse. by rewrite app_nil_r.
  - unfold GetTemplate. rewrite run_bind.
    destruct (UseCache (ren s)) eqn:Huse;
      [destruct (cached (ren s) t) as [tm|] eqn:Hc|].
    + by rewrite (resolve_hit _ _ _ Huse Hc).
    + rewrite resolve_miss by (by rewrite Huse, Hc).
      by destruct (buildTemplateFromDisk t _) as [[nt [e|]] s'|p s'].
    + rewrite resolve_miss by (by rewrite Huse).
      by destruct (buildTemplateFromDisk t _) as [[nt [e|]] s'|p s'].
  - intros w td. unfold Show. rewrite run_bind.
    destruct (buildTemplate t s) as [[tmpl [e|]] s'|p s']; go;
      rewrite ?parse_calls_app; simpl; rewrite ?app_nil_r; [done| |done].
    destruct tmpl as [tm|]; go; [|done].
    destruct (execute_template tm t td) as [written [e|]]; go;
      rewrite ?parse_calls_app; simpl; by rewrite ?app_nil_r.
  - intros td. unfold String_. rewrite run_bind.
    destruct (buildTemplate t s) as [[tmpl [e|]] s'|p s']; go; [done| |done].
    destruct tmpl as [tm|]; go; [|done].
    by destruct (execute tm td) as [written [e|]].
Qed.

Lemma resolution_cache_or_disk_witness :
  buildTemplate Demo.home (Demo.holding Demo.home true) =
  Returned (Some (Demo.page Demo.home), None)
    (mkState _ (ren (Demo.holding Demo.home true))
       [ MapRead "home.page.tmpl";
         Logged "Reading template home.page.tmpl from cache" ]) ∧
  parse_calls (trace (final (buildTemplate Demo.home (Demo.holding Demo.home false)))) =
  [("home.page.tmpl", ["templates/home.page.tmpl"])].
Proof.
  split.
  - exact (proj1 (resolution_cache_or_disk (Demo.holding Demo.home true) Demo.home)
             (Demo.page Demo.home) eq_refl eq_refl).
  - exact (proj2 (proj1 (proj2
             (resolution_cache_or_disk (Demo.holding Demo.home false) Demo.home))
             (or_introl eq_refl))).
Defined.

(** C4.  If the compile step of a disk build fails, the error is returned
    and the receiver, its cache map included, is left as it was: a prior
    entry under [t] stays, and no entry is added.  The same holds through
    [buildTemplate]. *)
Theorem failed_build_leaves_cache `{Capabilities} (s : State) (t : string) (err : error) :
  parse_files t (Functions (ren s)) (build_files (ren s) t) = inl err →
  buildTemplateFromDisk t s =
    Returned (None, Some err)
      (mkState _ (ren s) (trace s ++ build_prefix (ren s) t)) ∧
  ren (final (buildTemplate t s)) = ren s ∧
  ((UseCache (ren s) = false ∨ cached (ren s) t = None) →
     ∃ s', buildTemplate t s = Returned (None, Some err) s' ∧ ren s' = ren s).
Proof.
  intros Hparse. split; [by apply build_parse_error|].
  assert (∀ s0, ren s0 = ren s →
    after_build (buildTemplateFromDisk t s0) =
    Returned (None, Some err)
      (mkState _ (ren s)
         (trace s0 ++ build_prefix (ren s) t ++ [Logged "Error building from disk"])))
    as Hbuild.
  { intros s0 Hs0. rewrite (build_parse_error s0 t err) by (by rewrite Hs0).
    simpl. by rewrite Hs0, <- app_assoc. }
  split.
  - destruct (if UseCache (ren s) then cached (ren s) t else None) as [tm|] eqn:Hc.
    + destruct (UseCache (ren s)) eqn:Huse; [|done].
      by rewrite (resolve_hit _ _ _ Huse Hc).
    + rewrite (resolve_miss _ _ Hc). by rewrite Hbuild.
  - intros Hmiss.
    assert ((if UseCache (ren s) then cached (ren s) t else None) = None) as Hc.
    { destruct Hmiss as [-> | ->]; [done|by destruct (UseCache (ren s))]. }
    rewrite (resolve_miss _ _ Hc), Hbuild by done. eauto.
Qed.

Lemma failed_build_leaves_cache_witness :
  parse_files (Capabilities := Demo.world) "gone.page.tmpl" ∅
    (build_files (ren (Demo.holding Demo.home false)) "gone.page.tmpl")
  = inl "open templates/gone.page.tmpl: no such file or directory" ∧
  ren (final (buildTemplate "gone.page.tmpl" (Demo.holding Demo.home false))) =
  ren (Demo.holding Demo.home false).
Proof.
  split; [reflexivity|].
  exact (proj1 (proj2
    (failed_build_leaves_cache (Demo.holding Demo.home false) "gone.page.tmpl"
       "open templates/gone.page.tmpl: no such file or directory" eq_refl))).
Defined.

(** C5.  Every disk build calls the compile capability once, for the name
    [t] and with the whole list of partials followed by the one path
    [Join(TemplateDir, t)]; the set it returns or stores is named [t], is
    bound to the [Functions] of the receiver and holds what the capability
    made of exactly that list. *)
Theorem build_compiles_partials_then_page `{Capabilities} (s : State) (t : string) :
  let r := ren s in
  let files := Partials r ++ [Path.Join (TemplateDir r) t] in
  let o := buildTemplateFromDisk t s in
  parse_calls (trace (final o)) = parse_calls (trace s) ++ [(t, files)] ∧
  (∀ tm s', o = Returned (Some tm, None) s' →
     template.Name tm = t ∧ template.FuncReg tm = Functions r ∧
     parse_files t (Functions r) files = inr (template.Set_ tm)) ∧
  (∀ defs, parse_files t (Functions r) files = inr defs →
     is_Some (TemplateMap r) →
     cached (ren (final o)) t =
     Some {| template.Name := t; template.FuncReg := Functions r;
             template.Set_ := defs |}).
Proof.
  intros r files o. subst r files o. fold (build_files (ren s) t).
  split; [apply build_parse_calls|]. split.
  - intros tm s'.
    destruct (parse_files t (Functions (ren s)) (build_files (ren s) t))
      as [err|defs] eqn:Hparse.
    + by rewrite (build_parse_error _ _ _ Hparse).
    + destruct (TemplateMap (ren s)) as [m|] eqn:Hmap.
      * rewrite (build_stored_map _ _ _ _ Hparse Hmap).
        destruct (cached _ _); [|done]. intros [= <- _]. done.
      * by rewrite (build_nil_map _ _ _ Hparse Hmap).
  - intros defs Hparse [m Hmap]. rewrite (build_stores _ _ _ Hparse), Hmap.
    unfold cached, with_TemplateMap; simpl. by rewrite lookup_insert_eq.
Qed.

Lemma build_compiles_partials_then_page_witness :
  parse_calls (trace (final
    (buildTemplateFromDisk Demo.home
       (Demo.start (Demo.render true (Some ∅)
          ["templates/base.layout.tmpl"; "templates/css.partial.tmpl"]))))) =
  [("home.page.tmpl",
    ["templates/base.layout.tmpl"; "templates/css.partial.tmpl";
     "templates/home.page.tmpl"])].
Proof.
  exact (proj1 (build_compiles_partials_then_page
    (Demo.start (Demo.render true (Some ∅)
       ["templates/base.layout.tmpl"; "templates/css.partial.tmpl"])) Demo.home)).
Defined.

Lemma new_events_app2 `{Capabilities} {A} s (o : Outcome A) evs1 evs2 :
  trace (final o) = (trace s ++ evs1) ++ evs2 → new_events s o = evs1 ++ evs2.
Proof. intros Htr. apply new_events_app. by rewrite Htr, <- app_assoc. Qed.

(** X3.  Every write of the cache map that a resolution makes is made with
    [mapLock] held, however the resolution ends. *)
Lemma writes_hold_lock `{Capabilities} (s : State) (t : string) :
  guarded is_write false (new_events s (buildTemplate t s)) = true.
Proof.
  assert (∀ rest, guarded is_write false
                    ((cache_events (ren s) t ++ [Logged (Sprintln ["t"; t])]) ++ rest) =
                  guarded is_write false rest) as Hskip.
  { intros rest. unfold cache_events.
    destruct (UseCache (ren s)); [|done].
    by destruct (has_entry (ren s) t && Debug (ren s)). }
  destruct (if UseCache (ren s) then cached (ren s) t else None) as [tm|] eqn:Hc.
  - destruct (UseCache (ren s)) eqn:Huse; [|done].
    rewrite (resolve_hit _ _ _ Huse Hc).
    erewrite new_events_app by reflexivity.
    unfold cache_events. rewrite Huse.
    by destruct (has_entry (ren s) t && Debug (ren s)).
  - rewrite (resolve_miss _ _ Hc).
    destruct (parse_files t (Functions (ren s)) (build_files (ren s) t))
      as [err|defs] eqn:Hparse.
    + rewrite (build_parse_error _ t err) by done. simpl.
      rewrite <- app_assoc.
      erewrite new_events_app2 by reflexivity. by rewrite Hskip.
    + destruct (TemplateMap (ren s)) as [m|] eqn:Hmap.
      * rewrite (build_stored_map _ t defs m) by done. simpl.
        destruct (cached (with_TemplateMap _ _) _) as [tpl|]; simpl;
          (erewrite new_events_app2 by reflexivity); rewrite Hskip; [|done].
        simpl. unfold build_suffix. by destruct (Debug (ren s)).
      * rewrite (build_nil_map _ t defs) by done. simpl.
        erewrite new_events_app2 by reflexivity. by rewrite Hskip.
Qed.

(** X4.  Whenever the cache is switched on, a resolution starts with a read
    of the cache map that no [Lock] precedes: the reads of the cache map are
    not all made with [mapLock] held. *)
Lemma lookup_is_unguarded `{Capabilities} (s : State) (t : string) :
  UseCache (ren s) = true →
  guarded is_read false (new_events s (buildTemplate t s)) = false.
Proof.
  intros Huse.
  assert (∃ rest, cache_events (ren s) t = MapRead t :: rest) as [rest Hev].
  { unfold cache_events. rewrite Huse. eauto. }
  destruct (cached (ren s) t) as [tm|] eqn:Hc.
  - rewrite (resolve_hit _ _ _ Huse Hc).
    erewrite new_events_app by reflexivity. by rewrite Hev.
  - rewrite resolve_miss by (by rewrite Huse, Hc).
    destruct (after_build_trace_app (buildTemplateFromDisk t
      (mkState _ (ren s) (trace s ++ cache_events (ren s) t ++ [Logged (Sprintln ["t"; t])]))))
      as [rest1 Hrest1].
    destruct (build_trace
      (mkState _ (ren s) (trace s ++ cache_events (ren s) t ++ [Logged (Sprintln ["t"; t])])) t)
      as [rest2 Hrest2].
    rewrite Hrest2 in Hrest1. simpl in Hrest1.
    erewrite new_events_app; last first.
    { rewrite Hrest1. rewrite <- !app_assoc. reflexivity. }
    by rewrite Hev.
Qed.

(** C10 fails on the code: only the write of line 169 runs between
    [mapLock.Lock()] and [mapLock.Unlock()].  A resolution that finds its
    template in the cache reads the map (line 112) without ever taking the
    lock, and a disk build reads it (line 173) after the lock is
    released. *)
Theorem cache_reads_outside_lock :
  trace (final (buildTemplate Demo.home (Demo.holding Demo.home true))) =
    [ MapRead "home.page.tmpl";
      Logged "Reading template home.page.tmpl from cache" ] ∧
  guarded is_read false
    (trace (final (buildTemplate Demo.home (Demo.holding Demo.home true)))) = false ∧
  trace (final (buildTemplateFromDisk Demo.about (Demo.fresh false))) =
    [ Stdout "139 - page-buildTemplateFromDisk.t:  about.page.tmpl";
      Parsed "about.page.tmpl" ["templates/about.page.tmpl"];
      Lock; MapWrite "about.page.tmpl"; Unlock; MapRead "about.page.tmpl";
      Stdout "174 - page-tpl.DefinedTemplates():  ; defined templates are: templates/about.page.tmpl";
      Logged "Reading template about.page.tmpl from disk" ] ∧
  guarded is_read false
    (trace (final (buildTemplateFromDisk Demo.about (Demo.fresh false)))) = false ∧
  guarded is_write false
    (trace (final (buildTemplateFromDisk Demo.about (Demo.fresh false)))) = true.
Proof. repeat split; vm_compute; reflexivity. Qed.

(** ** Rendering *)

Section Rendering.
Context `{Capabilities}.

(** A resolution that returns without an error returns a template. *)
Lemma resolve_returns_template s t tmpl s' :
  buildTemplate t s = Returned (tmpl, None) s' → is_Some tmpl.
Proof.
  destruct (if UseCache (ren s) then cached (ren s) t else None) as [tm|] eqn:Hc.
  - destruct (UseCache (ren s)) eqn:Huse; [|done].
    rewrite (resolve_hit _ _ _ Huse Hc). intros [= <- _]. eauto.
  - rewrite (resolve_miss _ _ Hc).
    destruct (parse_files t (Functions (ren s)) (build_files (ren s) t))
      as [err|defs] eqn:Hparse.
    + by rewrite (build_parse_error _ t err).
    + destruct (TemplateMap (ren s)) as [m|] eqn:Hmap.
      * rewrite (build_stored_map _ t defs m) by done.
        simpl. destruct (cached (with_TemplateMap _ _) _); simpl; [|done].
        intros [= <- _]. eauto.
      * by rewrite (build_nil_map _ t defs).
Qed.

End Rendering.

(** C6.  [Show w t td] resolves the template set and executes it into [w]
    with [t] as the name of the definition to run.  If the execution fails,
    [http.Error] with status 500 is called on [w] and the error is
    returned; if it succeeds, nil is returned.  An error of the resolution
    is returned with [w] untouched, and a resolution that returns without
    an error always hands over a template. *)
Theorem Show_executes_named_and_reports `{Capabilities}
    (s : State) (w : ResponseWriter) (t : string) (td : Data) :
  (∀ tm s', buildTemplate t s = Returned (Some tm, None) s' →
     Show w t td s =
     match execute_template tm t td with
     | (written, None) => Returned (w ++ [Write written], None) s'
     | (written, Some err) =>
         Returned (w ++ [Write written; HttpError err 500], Some err)
           (mkState _ (ren s') (trace s' ++ [Logged (Sprintln ["error executing"; err])]))
     end) ∧
  (∀ tmpl err s', buildTemplate t s = Returned (tmpl, Some err) s' →
     Show w t td s =
     Returned (w, Some err)
       (mkState _ (ren s') (trace s' ++ [Logged (Sprintln ["error building"; err])]))) ∧
  (∀ p s', buildTemplate t s = Panicked p s' → Show w t td s = Panicked p s') ∧
  (∀ tmpl s', buildTemplate t s = Returned (tmpl, None) s' → is_Some tmpl).
Proof.
  split; [|split; [|split]].
  - intros tm s' Hres. unfold Show. rewrite run_bind, Hres. go.
    destruct (execute_template tm t td) as [written [err|]]; go; [|done].
    by rewrite <- app_assoc.
  - intros tmpl err s' Hres. unfold Show. rewrite run_bind, Hres. by go.
  - intros p s' Hres. unfold Show. by rewrite run_bind, Hres.
  - intros tmpl s'. apply resolve_returns_template.
Qed.

Lemma Show_executes_named_and_reports_witness :
  @Show Demo.world [] Demo.home "hello" (Demo.holding Demo.home true) =
    Returned ([Write "home.page.tmpl: hello"], None)
      (mkState _ (ren (Demo.holding Demo.home true))
         [ MapRead "home.page.tmpl";
           Logged "Reading template home.page.tmpl from cache" ]) ∧
  @Show Demo.world [] Demo.home "boom" (Demo.holding Demo.home true) =
    Returned ([Write "<html>"; HttpError "template: execution failed" 500],
              Some "template: execution failed")
      (mkState _ (ren (Demo.holding Demo.home true))
         [ MapRead "home.page.tmpl";
           Logged "Reading template home.page.tmpl from cache";
           Logged "error executing template: execution failed" ]).
Proof.
  split.
  - exact (proj1 (Show_executes_named_and_reports
      (Demo.holding Demo.home true) [] Demo.home "hello") (Demo.page Demo.home) _ eq_refl).
  - exact (proj1 (Show_executes_named_and_reports
      (Demo.holding Demo.home true) [] Demo.home "boom") (Demo.page Demo.home) _ eq_refl).
Defined.

(** C7.  [String t td] resolves the template set and executes it with
    [Execute], the set's own definition and not the one looked up under the
    name [t], into a buffer; on success the text of the buffer is returned
    with a nil error, and on an error of the resolution or of the execution
    the empty string is returned with the error. *)
Theorem String_executes_default `{Capabilities} (s : State) (t : string) (td : Data) :
  (∀ tm s', buildTemplate t s = Returned (Some tm, None) s' →
     String_ t td s =
     match execute tm td with
     | (written, None) => Returned (written, None) s'
     | (_, Some err) => Returned (EmptyString, Some err) s'
     end) ∧
  (∀ tmpl err s', buildTemplate t s = Returned (tmpl, Some err) s' →
     String_ t td s = Returned (EmptyString, Some err) s') ∧
  (∀ p s', buildTemplate t s = Panicked p s' → String_ t td s = Panicked p s') ∧
  (∀ tmpl s', buildTemplate t s = Returned (tmpl, None) s' → is_Some tmpl).
Proof.
  split; [|split; [|split]].
  - intros tm s' Hres. unfold String_. rewrite run_bind, Hres. go.
    by destruct (execute tm td) as [written [err|]].
  - intros tmpl err s' Hres. unfold String_. rewrite run_bind, Hres. by go.
  - intros p s' Hres. unfold String_. by rewrite run_bind, Hres.
  - intros tmpl s'. apply resolve_returns_template.
Qed.

Lemma String_executes_default_witness :
  @String_ Demo.world Demo.home "hello" (Demo.holding Demo.home true) =
    Returned ("(default): hello", None)
      (mkState _ (ren (Demo.holding Demo.home true))
         [ MapRead "home.page.tmpl";
           Logged "Reading template home.page.tmpl from cache" ]) ∧
  @String_ Demo.world Demo.home "boom" (Demo.holding Demo.home true) =
    Returned (EmptyString, Some "template: execution failed")
      (mkState _ (ren (Demo.holding Demo.home true))
         [ MapRead "home.page.tmpl";
           Logged "Reading template home.page.tmpl from cache" ]).
Proof.
  split.
  - exact (proj1 (String_executes_default
      (Demo.holding Demo.home true) Demo.home "hello") (Demo.page Demo.home) _ eq_refl).
  - exact (proj1 (String_executes_default
      (Demo.holding Demo.home true) Demo.home "boom") (Demo.page Demo.home) _ eq_refl).
Defined.

(** ** Discovery of layouts and partials *)

Section Text.

Lemma append_cons c s1 s2 : String c s1 +:+ s2 = String c (s1 +:+ s2).
Proof. reflexivity. Qed.

Lemma append_nil s : EmptyString +:+ s = s.
Proof. reflexivity. Qed.

Lemma HasPrefix_spec s prefix :
  Strings.HasPrefix s prefix = true ↔ ∃ rest, s = prefix +:+ rest.
Proof.
  revert s. induction prefix as [|a p IH]; intros s; simpl.
  - split; [eauto|done].
  - destruct s as [|b r]; [split; [done|by intros [? ?]]|].
    case_decide as Hab; [subst b|].
    + rewrite IH. split; intros [rest Hr]; exists rest;
        rewrite append_cons in *; congruence.
    + split; [done|]. intros [rest Hr]. rewrite append_cons in Hr. congruence.
Qed.

(** [Contains s substr] holds exactly when [substr] lies somewhere in
    [s]. *)
Lemma Contains_spec s substr :
  Strings.Contains s substr = true ↔
  ∃ before after, s = before +:+ substr +:+ after.
Proof.
  induction s as [|c r IH]; simpl.
  - rewrite orb_false_r, HasPrefix_spec. split.
    + intros [rest Hr]. by exists EmptyString, rest.
    + intros [[|? ?] [after Ha]]; [eauto|done].
  - rewrite orb_true_iff, HasPrefix_spec, IH. split.
    + intros [[rest Hr] | (before & after & Hr)].
      * by exists EmptyString, rest.
      * exists (String c before), after. by rewrite append_cons, Hr.
    + intros ([|c' before] & after & Hr).
      * left. eauto.
      * right. exists before, after. rewrite append_cons in Hr. congruence.
Qed.

Lemma ext_scan_Found path ext :
  Path.ext_scan path = Path.Found ext → ∃ base, path = base +:+ ext.
Proof.
  revert ext. induction path as [|c r IH]; intros ext; simpl; [done|].
  destruct (Path.ext_scan r) as [|e|] eqn:Hr.
  - repeat case_decide; try done. intros [= <-]. by exists EmptyString.
  - intros [= <-]. destruct (IH e eq_refl) as [base ->].
    by exists (String c base).
  - done.
Qed.

(** The extension is [.tmpl] exactly for the names that end in [.tmpl]. *)
Lemma Ext_tmpl_iff name :
  Path.Ext name = ".tmpl" ↔ ∃ base, name = base +:+ ".tmpl".
Proof.
  unfold Path.Ext. split.
  - destruct (Path.ext_scan name) eqn:Hs; try done.
    intros ->. by apply ext_scan_Found.
  - intros [base ->].
    assert (Path.ext_scan (base +:+ ".tmpl") = Path.Found ".tmpl") as ->; [|done].
    induction base as [|c b IH]; [reflexivity|].
    rewrite append_cons. simpl. by rewrite IH.
Qed.

End Text.

(** Induction on file trees: a directory inherits from its entries. *)
Lemma Node_ind (P : fs.Node → Prop) :
  (∀ name, P (fs.File name)) →
  (∀ name entries readErr, Forall P entries → P (fs.Dir name entries readErr)) →
  ∀ n, P n.
Proof.
  intros Hfile Hdir. fix IH 1. intros [name|name entries readErr].
  - apply Hfile.
  - apply Hdir. induction entries as [|d1 rest IHrest]; constructor.
    + apply IH.
    + apply IHrest.
Qed.

Section Discovery.
Context `{Capabilities}.

Lemma found_File ext path name :
  Walk.found ext path (fs.File name) =
  if decide (Path.Ext name = ext) then [path] else [].
Proof.
  unfold Walk.found. simpl. rewrite filter_cons; simpl.
  by case_decide.
Qed.

(** The walk of [find] over a readable tree collects, after what it had,
    the paths whose entry has the extension. *)
Lemma walkDir_readable ext n :
  ∀ path files,
    Walk.readable n = true →
    Walk.walkDir (find_fn ext) path n files =
    (files ++ Walk.found ext path n, None).
Proof.
  induction n as [name|name entries readErr IH] using Node_ind;
    intros path files Hread.
  - simpl. rewrite found_File. case_decide; simpl; [done|by rewrite app_nil_r].
  - simpl in Hread. apply andb_true_iff in Hread as [Herr Hentries].
    apply bool_decide_eq_true_1 in Herr. subst readErr.
    unfold Walk.found. simpl. rewrite filter_cons; simpl.
    set (here := if decide (Path.Ext name = ext) then [path] else []).
    assert (∀ files0,
      (fix walkEntries (dirs : list fs.Node) (s : list string) {struct dirs} :=
         match dirs with
         | [] => (s, None)
         | d1 :: rest =>
             match Walk.walkDir (find_fn ext)
                     (Path.Join path (fs.Name (fs.info d1))) d1 s with
             | (s0, Some err) => (s0, Some err)
             | (s0, None) => walkEntries rest s0
             end
         end) entries files0 =
      (files0 ++
       (filter (λ pn : string * string, Path.Ext pn.2 = ext)
          ((fix below (dirs : list fs.Node) : list (string * string) :=
              match dirs with
              | [] => []
              | d1 :: rest =>
                  Walk.visits (Path.Join path (fs.Name (fs.info d1))) d1 ++ below rest
              end) entries)).*1, None)) as Hbelow.
    { induction entries as [|d1 rest IHrest]; intros files0.
      - by rewrite app_nil_r.
      - simpl in Hentries. apply andb_true_iff in Hentries as [Hd1 Hrest].
        apply Forall_cons in IH as [IHd1 IHall].
        rewrite (IHd1 _ _ Hd1), (IHrest IHall Hrest).
        rewrite filter_app, fmap_app, app_assoc. done. }
    case_decide as Hext; simpl; rewrite Hbelow; subst here;
      rewrite ?decide_True by done; rewrite ?decide_False by done; simpl;
      by rewrite <- ?app_assoc.
Qed.

(** Over a tree with an unreadable directory the walk ends in an
    error. *)
Lemma walkDir_unreadable ext n :
  ∀ path files,
    Walk.readable n = false →
    ∃ files' err, Walk.walkDir (find_fn ext) path n files = (files', Some err).
Proof.
  induction n as [name|name entries readErr IH] using Node_ind;
    intros path files Hread; [done|].
  simpl in Hread. simpl.
  destruct readErr as [err|].
  - case_decide; simpl; eauto.
  - simpl in Hread.
    assert (∀ files0, ∃ files' err,
      (fix walkEntries (dirs : list fs.Node) (s : list string) {struct dirs} :=
         match dirs with
         | [] => (s, None)
         | d1 :: rest =>
             match Walk.walkDir (find_fn ext)
                     (Path.Join path (fs.Name (fs.info d1))) d1 s with
             | (s0, Some err) => (s0, Some err)
             | (s0, None) => walkEntries rest s0
             end
         end) entries files0 = (files', Some err)) as Hbelow.
    { induction entries as [|d1 rest IHrest]; intros files0; [done|].
      simpl in Hread. apply Forall_cons in IH as [IHd1 IHall].
      destruct (Walk.readable d1) eqn:Hd1.
      - rewrite (walkDir_readable _ _ _ _ Hd1). by apply IHrest.
      - destruct (IHd1 (Path.Join path (fs.Name (fs.info d1))) files0 eq_refl)
          as (files' & err & ->). eauto. }
    case_decide; simpl; apply Hbelow.
Qed.

(** What [find] returns. *)
Lemma find_spec root ext :
  find root ext =
  match lstat root with
  | inl err => ([], Some err)
  | inr n =>
      if Walk.readable n then (Walk.found ext root n, None)
      else ([], (Walk.walkDir (find_fn ext) root n []).2)
  end.
Proof.
  unfold find, Walk.WalkDir. destruct (lstat root) as [err|n]; [done|].
  destruct (Walk.readable n) eqn:Hread.
  - by rewrite (walkDir_readable _ _ _ _ Hread).
  - destruct (walkDir_unreadable ext n root [] Hread) as (files' & err & ->).
    done.
Qed.

Lemma find_returns root ext files :
  find root ext = (files, None) →
  ∃ n, lstat root = inr n ∧ Walk.readable n = true ∧
       files = Walk.found ext root n.
Proof.
  rewrite find_spec. destruct (lstat root) as [err|n]; [done|].
  destruct (Walk.readable n) eqn:Hread.
  - intros [= <-]. eauto.
  - destruct (walkDir_unreadable ext n root [] Hread) as (files' & err & ->).
    done.
Qed.

Lemma append_matching (keep : string → bool) files templates :
  foldl (λ templates x, if keep x then templates ++ [x] else templates)
    templates files =
  templates ++ filter (λ x, keep x = true) files.
Proof.
  revert templates. induction files as [|x files IH]; intros templates; simpl.
  - by rewrite app_nil_r.
  - rewrite IH, filter_cons. destruct (keep x) eqn:Hx.
    + rewrite decide_True by done. by rewrite <- app_assoc.
    + rewrite decide_False by done. done.
Qed.

(** What [addTemplate] returns. *)
Lemma addTemplate_spec path fileType :
  addTemplate path fileType =
  match find path ".tmpl" with
  | (_, Some err) => ([], Some err)
  | (files, None) =>
      (filter (λ x, Strings.Contains x fileType = true) files, None)
  end.
Proof.
  unfold addTemplate. destruct (find path ".tmpl") as [files [err|]]; [done|].
  by rewrite append_matching.
Qed.

End Discovery.

Section Loading.
Context `{Capabilities}.

Lemma load_loop_all dir fileTypes templates :
  Forall (λ ft, (addTemplate dir ft).2 = None) fileTypes →
  load_loop dir fileTypes templates =
  (templates ++ concat ((λ ft, (addTemplate dir ft).1) <$> fileTypes), None).
Proof.
  intros Hall. revert templates.
  induction Hall as [|ft rest Hft _ IH]; intros templates; simpl.
  - by rewrite app_nil_r.
  - destruct (addTemplate dir ft) as [files err]; simpl in *. subst err.
    by rewrite IH, app_assoc.
Qed.

Lemma load_loop_first_error dir fileTypes templates :
  Exists (λ ft, is_Some (addTemplate dir ft).2) fileTypes →
  ∃ templates' ft err,
    load_loop dir fileTypes templates = (templates', Some err) ∧
    ft ∈ fileTypes ∧ (addTemplate dir ft).2 = Some err.
Proof.
  revert templates. induction fileTypes as [|ft rest IH]; intros templates Hex.
  - by apply Exists_nil in Hex.
  - simpl. destruct (addTemplate dir ft) as [files [err|]] eqn:Hft.
    + exists templates, ft, err. rewrite Hft. split_and!; [done|set_solver|done].
    + apply Exists_cons in Hex as [[? Hsome]|Hex]; [by rewrite Hft in Hsome|].
      destruct (IH (templates ++ files) Hex) as (t' & ft' & err & Hl & Hin & He).
      exists t', ft', err. split_and!; [done|set_solver|done].
Qed.

End Loading.

(** C8.  [LoadLayoutsAndPartials fileTypes]: if the search of some file type
    fails, the error of the first one that fails is returned and the
    receiver, its [Partials] included, is as before; if none fails,
    [Partials] becomes the concatenation, in the order of [fileTypes], of
    the lists found, and no other field changes. *)
Theorem LoadLayoutsAndPartials_sets_Partials `{Capabilities}
    (s : State) (fileTypes : list string) :
  let r := ren s in
  let line159 :=
    Stdout (Sprintln ["159 - page-LoadLayoutsAndPartials: "; Sprint_slice fileTypes]) in
  let o := LoadLayoutsAndPartials fileTypes s in
  (Exists (λ ft, is_Some (addTemplate (TemplateDir r) ft).2) fileTypes →
     ∃ ft err, ft ∈ fileTypes ∧ (addTemplate (TemplateDir r) ft).2 = Some err ∧
       o = Returned (Some err) (mkState _ r (trace s ++ [line159]))) ∧
  (Forall (λ ft, (addTemplate (TemplateDir r) ft).2 = None) fileTypes →
     let templates :=
       concat ((λ ft, (addTemplate (TemplateDir r) ft).1) <$> fileTypes) in
     o = Returned None
           (mkState _ (with_Partials r templates)
              (trace s ++
               [ line159;
                 Stdout (Sprintln ["171 - page-LoadLayoutsAndPartials: ";
                                   Sprint_slice templates]) ]))).
Proof.
  intros r line159 o. subst r line159 o. destruct s as [r tr]; simpl. split.
  - intros Hex.
    destruct (load_loop_first_error (TemplateDir r) fileTypes [] Hex)
      as (t' & ft & err & Hl & Hin & He).
    exists ft, err. split_and!; [done..|].
    unfold LoadLayoutsAndPartials. go. by rewrite Hl.
  - intros Hall. unfold LoadLayoutsAndPartials. go.
    rewrite (load_loop_all _ _ _ Hall). go.
    by rewrite <- app_assoc.
Qed.

Lemma LoadLayoutsAndPartials_sets_Partials_witness :
  @LoadLayoutsAndPartials Demo.world [".layout"; ".partial"] (Demo.fresh true) =
    Returned None
      (mkState _
         (Demo.render true (Some ∅)
            [ "templates/base.layout.tmpl"; "templates/mail/mail.layout.tmpl";
              "templates/css.partial.tmpl"; "templates/footer.partial.tmpl" ])
         [ Stdout "159 - page-LoadLayoutsAndPartials:  [.layout .partial]";
           Stdout "171 - page-LoadLayoutsAndPartials:  [templates/base.layout.tmpl templates/mail/mail.layout.tmpl templates/css.partial.tmpl templates/footer.partial.tmpl]" ]) ∧
  ∃ ft err, ft ∈ [".layout"; ".partial"] ∧
    (@addTemplate Demo.world (TemplateDir (ren Demo.lost)) ft).2 = Some err ∧
    @LoadLayoutsAndPartials Demo.world [".layout"; ".partial"] Demo.lost =
      Returned (Some err)
        (mkState _ (ren Demo.lost)
           (trace Demo.lost ++
            [Stdout (Sprintln ["159 - page-LoadLayoutsAndPartials: ";
                               Sprint_slice [".layout"; ".partial"]])])).
Proof.
  split.
  - exact (proj2 (LoadLayoutsAndPartials_sets_Partials (Demo.fresh true)
             [".layout"; ".partial"])
             ltac:(repeat constructor)).
  - exact (proj1 (LoadLayoutsAndPartials_sets_Partials Demo.lost
             [".layout"; ".partial"])
             ltac:(apply Exists_cons_hd; vm_compute; eauto)).
Defined.

(** C9.  [addTemplate] asks [find] for the extension [.tmpl] and no other:
    when it returns a list, a path is in it exactly when the walk reached
    an entry at that path whose name has the extension [.tmpl] and the path
    contains the marker.  A path none of whose entries has that extension
    is never in the list, whatever the marker. *)
Theorem addTemplate_tmpl_and_marker `{Capabilities} (root marker : string) (l : list string) :
  addTemplate root marker = (l, None) →
  ∃ n, lstat root = inr n ∧
    l = filter (λ p, Strings.Contains p marker = true) (Walk.found ".tmpl" root n) ∧
    (∀ p, p ∈ l ↔
       (∃ name, (p, name) ∈ Walk.visits root n ∧ Path.Ext name = ".tmpl") ∧
       (∃ before after, p = before +:+ marker +:+ after)) ∧
    (∀ p, (∀ name, (p, name) ∈ Walk.visits root n → Path.Ext name ≠ ".tmpl") →
          p ∉ l).
Proof.
  rewrite addTemplate_spec.
  destruct (find root ".tmpl") as [files [err|]] eqn:Hfind; [done|].
  intros [= <-].
  destruct (find_returns _ _ _ Hfind) as (n & Hn & _ & ->).
  exists n. split; [done|]. split; [done|].
  assert (∀ p, p ∈ Walk.found ".tmpl" root n ↔
               ∃ name, (p, name) ∈ Walk.visits root n ∧ Path.Ext name = ".tmpl")
    as Hfound.
  { intros p. unfold Walk.found. rewrite list_elem_of_fmap. split.
    - intros ([p' name] & -> & Hin). apply list_elem_of_filter in Hin as [Hext Hin].
      eauto.
    - intros (name & Hin & Hext). exists (p, name). split; [done|].
      by apply list_elem_of_filter. }
  split.
  - intros p. by rewrite list_elem_of_filter, Hfound, Contains_spec, (comm and).
  - intros p Hnone Hin. apply list_elem_of_filter in Hin as [_ Hin].
    apply Hfound in Hin as (name & Hin & Hext). by apply (Hnone name).
Qed.

Lemma addTemplate_tmpl_and_marker_witness :
  @addTemplate Demo.world "./templates" "layout" =
    (["templates/base.layout.tmpl"; "templates/mail/mail.layout.tmpl"], None) ∧
  ∃ n, @lstat Demo.world "./templates" = inr n ∧
       ["templates/base.layout.tmpl"; "templates/mail/mail.layout.tmpl"] =
       filter (λ p, Strings.Contains p "layout" = true)
         (Walk.found ".tmpl" "./templates" n).
Proof.
  split; [reflexivity|].
  destruct (addTemplate_tmpl_and_marker (H := Demo.world) "./templates" "layout"
              ["templates/base.layout.tmpl"; "templates/mail/mail.layout.tmpl"]
              eq_refl) as (n & Hn & Hl & _).
  exists n. split; [exact Hn|exact Hl].
Defined.

(** [layout.txt] contains the marker and is left out; [mail.layout.tmpl],
    one directory down, is found. *)
Example discovery_of_layouts :
  @addTemplate Demo.world "./templates" "layout" =
    (["templates/base.layout.tmpl"; "templates/mail/mail.layout.tmpl"], None) ∧
  ("templates/layout.txt", "layout.txt") ∈ Walk.visits "./templates" Demo.templates ∧
  Strings.Contains "templates/layout.txt" "layout" = true.
Proof.
  split; [reflexivity|]. split; [|reflexivity].
  vm_compute. repeat first [apply list_elem_of_here | apply list_elem_of_further].
Qed.

(** * Further properties of the package *)

(** ** What a resolution does to the receiver *)

Section Receiver.
Context `{Capabilities}.

Lemma with_TemplateMap_same r : with_TemplateMap r (TemplateMap r) = r.
Proof. by destruct r. Qed.

(** The receiver a resolution ends with: the one it started from, with at
    most the entry under [t] replaced. *)
Lemma ren_after_resolution s t :
  ∃ mm, ren (final (buildTemplate t s)) = with_TemplateMap (ren s) mm ∧
        (mm = TemplateMap (ren s) ∨
         ∃ m tm, TemplateMap (ren s) = Some m ∧ mm = Some (<[t := Some tm]> m)).
Proof.
  destruct (if UseCache (ren s) then cached (ren s) t else None) as [tm|] eqn:Hc.
  - destruct (UseCache (ren s)) eqn:Huse; [|done].
    rewrite (resolve_hit _ _ _ Huse Hc). simpl.
    exists (TemplateMap (ren s)). by rewrite with_TemplateMap_same; auto.
  - rewrite (resolve_miss _ _ Hc), after_build_ren.
    destruct (parse_files t (Functions (ren s)) (build_files (ren s) t))
      as [err|defs] eqn:Hparse.
    + rewrite (build_parse_error _ t err) by done. simpl.
      exists (TemplateMap (ren s)). by rewrite with_TemplateMap_same; auto.
    + rewrite (build_stores _ t defs) by done. simpl.
      eexists. split; [reflexivity|].
      destruct (TemplateMap (ren s)) as [m|]; simpl; eauto.
Qed.

Lemma ren_after_Show s w t td :
  ren (final (Show w t td s)) = ren (final (buildTemplate t s)).
Proof.
  unfold Show. rewrite run_bind.
  destruct (buildTemplate t s) as [[tmpl [e|]] s'|p s']; go; [done| |done].
  destruct tmpl as [tm|]; go; [|done].
  by destruct (execute_template tm t td) as [written [e|]].
Qed.

Lemma ren_after_String s t td :
  ren (final (String_ t td s)) = ren (final (buildTemplate t s)).
Proof.
  unfold String_. rewrite run_bind.
  destruct (buildTemplate t s) as [[tmpl [e|]] s'|p s']; go; [done| |done].
  destruct tmpl as [tm|]; go; [|done].
  by destruct (execute tm td) as [written [e|]].
Qed.

Lemma ren_after_GetTemplate s t :
  ren (final (GetTemplate t s)) = ren (final (buildTemplate t s)).
Proof.
  unfold GetTemplate. rewrite run_bind.
  by destruct (buildTemplate t s) as [[tmpl [e|]] s'|p s'].
Qed.

End Receiver.

(** X1.  Whatever [Show], [String], [GetTemplate] or [buildTemplate] do for
    a name [t], and however they end, the receiver keeps its
    [TemplateDir], [Functions], [UseCache], [Partials] and [Debug]; a nil
    cache map stays nil and an allocated one stays allocated; and every
    entry of the cache map under a key other than [t] is as before. *)
Theorem resolution_touches_only_its_entry `{Capabilities}
    (s : State) (w : ResponseWriter) (t : string) (td : Data) :
  let untouched (r' : Render) :=
    TemplateDir r' = TemplateDir (ren s) ∧ Functions r' = Functions (ren s) ∧
    UseCache r' = UseCache (ren s) ∧ Partials r' = Partials (ren s) ∧
    Debug r' = Debug (ren s) ∧
    (is_Some (TemplateMap r') ↔ is_Some (TemplateMap (ren s))) ∧
    ∀ k, k ≠ t →
      (TemplateMap r' ≫= λ m, m !! k) = (TemplateMap (ren s) ≫= λ m, m !! k) in
  untouched (ren (final (buildTemplate t s))) ∧
  untouched (ren (final (GetTemplate t s))) ∧
  untouched (ren (final (Show w t td s))) ∧
  untouched (ren (final (String_ t td s))).
Proof.
  intros untouched.
  rewrite ren_after_GetTemplate, ren_after_Show, ren_after_String.
  assert (untouched (ren (final (buildTemplate t s)))) as Hu; [|done].
  destruct (ren_after_resolution s t) as (mm & -> & Hmm). subst untouched. simpl.
  split_and!; try done.
  - destruct Hmm as [-> | (m & tm & -> & ->)]; [done|].
    split; eauto.
  - intros k Hk. destruct Hmm as [-> | (m & tm & -> & ->)]; [done|].
    simpl. by rewrite lookup_insert_ne.
Qed.

(** X2.  When the cache is on and the compile step of a first resolution of
    [t] succeeds on an allocated cache map, a second resolution of [t]
    returns the set the first one compiled and reads no file, also when
    the first one ended in a panic. *)
Theorem second_resolution_from_cache `{Capabilities}
    (s : State) (t : string) (defs : Defs) :
  UseCache (ren s) = true →
  is_Some (TemplateMap (ren s)) →
  cached (ren s) t = None →
  parse_files t (Functions (ren s)) (build_files (ren s) t) = inr defs →
  let s1 := final (buildTemplate t s) in
  buildTemplate t s1 =
    Returned (Some (compiled (ren s) t defs), None)
      (mkState _ (ren s1) (trace s1 ++ cache_events (ren s1) t)) ∧
  parse_calls (trace (final (buildTemplate t s1))) = parse_calls (trace s1).
Proof.
  intros Huse [m Hmap] Hc Hparse s1.
  assert (ren s1 = with_TemplateMap (ren s)
                     (Some (<[t := Some (compiled (ren s) t defs)]> m))) as Hren.
  { subst s1. rewrite resolve_miss by (by rewrite Huse, Hc).
    rewrite after_build_ren, (build_stores _ t defs) by done. simpl.
    by rewrite Hmap. }
  assert (buildTemplate t s1 =
    Returned (Some (compiled (ren s) t defs), None)
      (mkState _ (ren s1) (trace s1 ++ cache_events (ren s1) t))) as Hhit.
  { apply resolve_hit.
    - by rewrite Hren.
    - rewrite Hren. unfold cached, with_TemplateMap; simpl.
      by rewrite lookup_insert_eq. }
  split; [done|]. rewrite Hhit. simpl.
  rewrite parse_calls_app, cache_events_no_parse. by rewrite app_nil_r.
Qed.

Lemma second_resolution_from_cache_witness :
  UseCache (ren (Demo.fresh true)) = true ∧
  result_of (buildTemplate Demo.home (Demo.fresh true)) = inr NilPointerDereference ∧
  result_of (buildTemplate Demo.home (final (buildTemplate Demo.home (Demo.fresh true)))) =
    inl (Some (Demo.page Demo.home), None).
Proof.
  split; [reflexivity|]. split; [reflexivity|].
  exact (f_equal result_of
           (proj1 (second_resolution_from_cache (Demo.fresh true) Demo.home
                     ["templates/home.page.tmpl"] eq_refl (mk_is_Some _ _ eq_refl)
                     eq_refl eq_refl))).
Defined.

Lemma lookup_is_unguarded_witness :
  UseCache (ren (Demo.fresh true)) = true ∧
  guarded is_read false
    (new_events (Demo.fresh true) (buildTemplate Demo.about (Demo.fresh true))) = false.
Proof.
  split; [reflexivity|].
  exact (lookup_is_unguarded (Demo.fresh true) Demo.about eq_refl).
Defined.

(** X5.  A resolution leaves [mapLock] held exactly when the cache map is nil
    and the compile step succeeds: the assignment of line 169 then panics
    between [Lock] and [Unlock].  In every other case the lock is free when
    the resolution ends. *)
Theorem lock_left_held_iff_nil_map `{Capabilities} (s : State) (t : string) :
  held_after false (new_events s (buildTemplate t s)) =
  match TemplateMap (ren s),
        parse_files t (Functions (ren s)) (build_files (ren s) t) with
  | None, inr _ => true
  | _, _ => false
  end.
Proof.
  assert (∀ rest, held_after false
                    ((cache_events (ren s) t ++ [Logged (Sprintln ["t"; t])]) ++ rest) =
                  held_after false rest) as Hskip.
  { intros rest. unfold cache_events.
    destruct (UseCache (ren s)); [|done].
    by destruct (has_entry (ren s) t && Debug (ren s)). }
  destruct (if UseCache (ren s) then cached (ren s) t else None) as [tm|] eqn:Hc.
  - destruct (UseCache (ren s)) eqn:Huse; [|done].
    rewrite (resolve_hit _ _ _ Huse Hc).
    erewrite new_events_app by reflexivity.
    assert (is_Some (TemplateMap (ren s))) as [m ->].
    { unfold cached in Hc. destruct (TemplateMap (ren s)); [eauto|done]. }
    unfold cache_events. rewrite Huse.
    by destruct (has_entry (ren s) t && Debug (ren s)).
  - rewrite (resolve_miss _ _ Hc).
    destruct (parse_files t (Functions (ren s)) (build_files (ren s) t))
      as [err|defs] eqn:Hparse.
    + rewrite (build_parse_error _ t err) by done. simpl.
      rewrite <- app_assoc.
      erewrite new_events_app2 by reflexivity. rewrite Hskip.
      by destruct (TemplateMap (ren s)).
    + destruct (TemplateMap (ren s)) as [m|] eqn:Hmap.
      * rewrite (build_stored_map _ t defs m) by done. simpl.
        destruct (cached (with_TemplateMap _ _) _) as [tpl|]; simpl;
          (erewrite new_events_app2 by reflexivity); rewrite Hskip; [|done].
        simpl. unfold build_suffix. by destruct (Debug (ren s)).
      * rewrite (build_nil_map _ t defs) by done. simpl.
        erewrite new_events_app2 by reflexivity. by rewrite Hskip.
Qed.

(** X6.  An entry of the cache map that is a nil pointer does not count as
    cached: with the cache on, the resolution finds the key, logs (in debug
    mode) that it reads the template from the cache, and builds it from
    disk all the same. *)
Theorem nil_entry_is_rebuilt `{Capabilities}
    (s : State) (t : string) (m : gmap string (option Template)) :
  UseCache (ren s) = true →
  TemplateMap (ren s) = Some m →
  m !! t = Some None →
  ∃ rest,
    new_events s (buildTemplate t s) =
    MapRead t ::
    (if Debug (ren s)
     then [Logged (Sprintln ["Reading template"; t; "from cache"])] else []) ++
    Logged (Sprintln ["t"; t]) :: build_prefix (ren s) t ++ rest.
Proof.
  intros Huse Hmap Hm.
  assert (cached (ren s) t = None) as Hc.
  { unfold cached. rewrite Hmap. simpl. by rewrite Hm. }
  assert (cache_events (ren s) t =
          MapRead t ::
          (if Debug (ren s)
           then [Logged (Sprintln ["Reading template"; t; "from cache"])] else []))
    as Hev.
  { unfold cache_events, has_entry. rewrite Huse, Hmap, Hm.
    by rewrite bool_decide_eq_true_2 by eauto. }
  rewrite resolve_miss by (by rewrite Huse, Hc).
  destruct (after_build_trace_app (buildTemplateFromDisk t
    (mkState _ (ren s) (trace s ++ cache_events (ren s) t ++ [Logged (Sprintln ["t"; t])]))))
    as [rest1 Hrest1].
  destruct (build_trace
    (mkState _ (ren s) (trace s ++ cache_events (ren s) t ++ [Logged (Sprintln ["t"; t])])) t)
    as [rest2 Hrest2].
  rewrite Hrest2 in Hrest1. simpl in Hrest1.
  exists (rest2 ++ rest1). apply new_events_app.
  rewrite Hrest1, Hev. simpl. rewrite <- !app_assoc. simpl.
  by rewrite <- !app_assoc.
Qed.

Lemma nil_entry_is_rebuilt_witness :
  ∃ rest,
    new_events (Demo.start (Demo.render true (Some {[ Demo.home := None ]}) []))
      (buildTemplate Demo.home
         (Demo.start (Demo.render true (Some {[ Demo.home := None ]}) []))) =
    MapRead "home.page.tmpl" ::
    [Logged (Sprintln ["Reading template"; "home.page.tmpl"; "from cache"])] ++
    Logged (Sprintln ["t"; "home.page.tmpl"]) ::
    build_prefix (Demo.render true (Some {[ Demo.home := None ]}) []) Demo.home ++ rest.
Proof.
  exact (nil_entry_is_rebuilt
           (Demo.start (Demo.render true (Some {[ Demo.home := None ]}) []))
           Demo.home {[ Demo.home := None ]} eq_refl eq_refl eq_refl).
Defined.

(** ** More on the discovery *)

Section Finding.
Context `{Capabilities}.

Lemma no_read_errors_readable n :
  Walk.read_errors n = [] → Walk.readable n = true.
Proof.
  induction n as [name|name entries readErr IH] using Node_ind; [done|].
  simpl. destruct readErr as [err|]; [done|]. simpl.
  induction entries as [|d1 rest IHrest]; [done|].
  apply Forall_cons in IH as [IHd1 IHall]. simpl.
  intros [Hd1 Hrest]%app_eq_nil.
  by rewrite (IHd1 Hd1), (IHrest IHall Hrest).
Qed.

(** The walk of [find] ends with the error of the first directory that
    cannot be read. *)
Lemma walkDir_first_read_error ext n :
  ∀ path files err rest,
    Walk.read_errors n = err :: rest →
    ∃ files', Walk.walkDir (find_fn ext) path n files = (files', Some err).
Proof.
  induction n as [name|name entries readErr IH] using Node_ind;
    intros path files err rest Herrs; [done|].
  simpl in Herrs. simpl. destruct readErr as [err0|].
  - simpl in Herrs. injection Herrs as -> _. case_decide; simpl; eauto.
  - simpl in Herrs.
    assert (∀ files0, ∃ files',
      (fix walkEntries (dirs : list fs.Node) (s : list string) {struct dirs} :=
         match dirs with
         | [] => (s, None)
         | d1 :: rest =>
             match Walk.walkDir (find_fn ext)
                     (Path.Join path (fs.Name (fs.info d1))) d1 s with
             | (s0, Some err) => (s0, Some err)
             | (s0, None) => walkEntries rest s0
             end
         end) entries files0 = (files', Some err)) as Hbelow.
    { revert Herrs. induction entries as [|d1 rest' IHrest]; intros Herrs files0;
        [done|].
      apply Forall_cons in IH as [IHd1 IHall].
      destruct (Walk.read_errors d1) as [|e1 errs1] eqn:Hd1.
      - rewrite (walkDir_readable _ _ _ _ (no_read_errors_readable _ Hd1)).
        by apply IHrest.
      - simpl in Herrs. injection Herrs as -> _.
        destruct (IHd1 (Path.Join path (fs.Name (fs.info d1))) files0 _ _ eq_refl)
          as [files' ->]. eauto. }
    case_decide; simpl; apply Hbelow.
Qed.

(** The name extension that [filepath.Ext] returns is empty or starts with
    a dot. *)
Lemma Ext_shape path :
  Path.Ext path = EmptyString ∨ ∃ e, Path.Ext path = String "." e.
Proof.
  unfold Path.Ext.
  assert (∀ p ext, Path.ext_scan p = Path.Found ext → ∃ e, ext = String "." e)
    as Hfound.
  { induction p as [|c r IH]; intros ext; simpl; [done|].
    destruct (Path.ext_scan r) as [|e|] eqn:Hr.
    - repeat case_decide; try done. intros [= <-]. subst c. eauto.
    - intros [= <-]. eauto.
    - done. }
  destruct (Path.ext_scan path) as [|e|] eqn:Hs; [by left| |by left].
  right. by apply (Hfound path).
Qed.

Lemma filter_none {A} (P : A → Prop) `{∀ x, Decision (P x)} (l : list A) :
  (∀ x, x ∈ l → ¬ P x) → filter P l = [].
Proof.
  induction l as [|x l IH]; intros Hnone; [done|].
  rewrite filter_cons, decide_False by (apply Hnone; set_solver).
  apply IH. intros y Hy. apply Hnone. set_solver.
Qed.

Lemma filter_all {A} (P : A → Prop) `{∀ x, Decision (P x)} (l : list A) :
  (∀ x, x ∈ l → P x) → filter P l = l.
Proof.
  induction l as [|x l IH]; intros Hall; [done|].
  rewrite filter_cons, decide_True by (apply Hall; set_solver).
  f_equal. apply IH. intros y Hy. apply Hall. set_solver.
Qed.

Lemma append_assoc (s1 s2 s3 : string) :
  (s1 +:+ s2) +:+ s3 = s1 +:+ s2 +:+ s3.
Proof.
  induction s1 as [|c s1 IH]; [done|]. by rewrite !append_cons, IH.
Qed.

(** [find] returns a list or an error, never both. *)
Lemma find_error_no_list root ext files err :
  find root ext = (files, Some err) → files = [].
Proof.
  unfold find.
  destruct (Walk.WalkDir (find_fn ext) lstat root []) as [fs0 [e|]]; congruence.
Qed.

Lemma addTemplate_error path fileType :
  (addTemplate path fileType).2 = (find path ".tmpl").2.
Proof.
  rewrite addTemplate_spec. by destruct (find path ".tmpl") as [files [err|]].
Qed.

Lemma addTemplate_error_no_list path fileType err :
  (addTemplate path fileType).2 = Some err → (addTemplate path fileType).1 = [].
Proof.
  rewrite addTemplate_spec. by destruct (find path ".tmpl") as [files [e|]].
Qed.

End Finding.

(** X7.  [find] gives all or nothing.  If [Lstat] of the root fails, its
    error is returned with an empty list; if some directory below cannot
    be read, the error of the first such directory in walk order is
    returned with an empty list, whatever was collected before; otherwise
    the paths of all entries with the extension are returned, in walk
    order, with a nil error. *)
Theorem find_all_or_first_error `{Capabilities} (root ext : string) :
  find root ext =
  match lstat root with
  | inl err => ([], Some err)
  | inr n =>
      match Walk.read_errors n with
      | [] => (Walk.found ext root n, None)
      | err :: _ => ([], Some err)
      end
  end.
Proof.
  unfold find, Walk.WalkDir. destruct (lstat root) as [err|n]; [done|].
  destruct (Walk.read_errors n) as [|err rest] eqn:Herrs.
  - by rewrite (walkDir_readable _ _ _ _ (no_read_errors_readable _ Herrs)).
  - by destruct (walkDir_first_read_error ext n root [] err rest Herrs) as [files' ->].
Qed.

(** X8.  An extension that is not empty and does not start with a dot
    matches no entry: [find] then returns no path at all, whatever the
    tree. *)
Theorem find_without_dot_finds_nothing `{Capabilities} (root ext : string) :
  ext ≠ EmptyString →
  (∀ e, ext ≠ String "." e) →
  (find root ext).1 = [].
Proof.
  intros Hne Hdot. rewrite find_spec.
  destruct (lstat root) as [err|n]; [done|].
  destruct (Walk.readable n); [|done]. simpl.
  unfold Walk.found. rewrite filter_none; [done|].
  intros [p name] _ Hext. simpl in Hext.
  destruct (Ext_shape name) as [He | [e He]]; rewrite He in Hext.
  - by apply Hne.
  - by apply (Hdot e).
Qed.

Lemma find_without_dot_finds_nothing_witness :
  "tmpl" ≠ EmptyString ∧ (@find Demo.world "./templates" "tmpl").1 = [] ∧
  (@find Demo.world "./templates" ".tmpl").1 ≠ [].
Proof.
  split; [done|]. split; [|done].
  exact (find_without_dot_finds_nothing (H := Demo.world) "./templates" "tmpl"
           ltac:(done) ltac:(done)).
Defined.

(** X9.  With the empty marker [addTemplate] keeps every file that [find]
    returns for the extension [.tmpl], and passes its error on
    unchanged. *)
Theorem addTemplate_empty_marker `{Capabilities} (root : string) :
  addTemplate root EmptyString = find root ".tmpl".
Proof.
  rewrite addTemplate_spec.
  destruct (find root ".tmpl") as [files [err|]] eqn:Hfind.
  - by rewrite (find_error_no_list _ _ _ _ Hfind).
  - rewrite filter_all; [done|]. intros x _. by destruct x.
Qed.

(** X10.  A marker that contains another marker finds no path that the
    other one does not find. *)
Theorem addTemplate_longer_marker_finds_less `{Capabilities}
    (root marker part : string) (p : string) :
  Strings.Contains marker part = true →
  p ∈ (addTemplate root marker).1 →
  p ∈ (addTemplate root part).1.
Proof.
  intros Hpart. rewrite !addTemplate_spec.
  destruct (find root ".tmpl") as [files [err|]]; [done|]. simpl.
  rewrite !list_elem_of_filter, !Contains_spec.
  apply Contains_spec in Hpart as (c & d & ->).
  intros [(a & b & ->) Hin]. split; [|done].
  exists (a +:+ c), (d +:+ b). by rewrite !append_assoc.
Qed.

Lemma addTemplate_longer_marker_finds_less_witness :
  Strings.Contains ".layout" "layout" = true ∧
  "templates/base.layout.tmpl" ∈ (@addTemplate Demo.world "./templates" ".layout").1 ∧
  "templates/base.layout.tmpl" ∈ (@addTemplate Demo.world "./templates" "layout").1.
Proof.
  split; [reflexivity|].
  assert ("templates/base.layout.tmpl" ∈
          (@addTemplate Demo.world "./templates" ".layout").1) as Hin.
  { vm_compute. apply list_elem_of_here. }
  split; [exact Hin|].
  exact (addTemplate_longer_marker_finds_less (H := Demo.world)
           "./templates" ".layout" "layout" _ eq_refl Hin).
Defined.

Section Suffix.

Lemma ext_scan_plain e : plain e = true → Path.ext_scan e = Path.Scanning.
Proof.
  induction e as [|c r IH]; [done|]. simpl.
  intros [[Hdot Hsep]%andb_true_iff Hr]%andb_true_iff.
  rewrite (IH Hr).
  apply negb_true_iff, bool_decide_eq_false_1 in Hdot, Hsep.
  by rewrite !decide_False.
Qed.

(** For an extension made of a dot and a plain part, the names with that
    extension are the names that end in it. *)
Lemma Ext_suffix_iff e name :
  plain e = true →
  Path.Ext name = String "." e ↔ ∃ base, name = base +:+ String "." e.
Proof.
  intros He. unfold Path.Ext. split.
  - destruct (Path.ext_scan name) eqn:Hs; try done.
    intros ->. by apply ext_scan_Found.
  - intros [base ->].
    assert (Path.ext_scan (base +:+ String "." e) = Path.Found (String "." e))
      as ->; [|done].
    induction base as [|c b IH].
    + rewrite append_nil. simpl. by rewrite (ext_scan_plain _ He).
    + rewrite append_cons. simpl. by rewrite IH.
Qed.

End Suffix.

(** X11.  For an extension made of a dot and a part without dots and
    separators, a successful [find] lists exactly the paths of the entries
    reached whose name ends in the extension, be they files or
    directories. *)
Theorem find_lists_names_ending_in_ext `{Capabilities}
    (root e : string) (files : list string) :
  plain e = true →
  find root (String "." e) = (files, None) →
  ∃ n, lstat root = inr n ∧
    ∀ p, p ∈ files ↔
         ∃ name base, (p, name) ∈ Walk.visits root n ∧
                      name = base +:+ String "." e.
Proof.
  intros He Hfind. destruct (find_returns _ _ _ Hfind) as (n & Hn & _ & ->).
  exists n. split; [done|]. intros p. unfold Walk.found.
  rewrite list_elem_of_fmap. split.
  - intros ([p' name] & -> & Hin). apply list_elem_of_filter in Hin as [Hext Hin].
    simpl in *. apply (Ext_suffix_iff _ _ He) in Hext as [base ->]. eauto.
  - intros (name & base & Hin & ->). exists (p, base +:+ String "." e).
    split; [done|]. apply list_elem_of_filter. split; [|done].
    simpl. apply (Ext_suffix_iff _ _ He). eauto.
Qed.

Lemma find_lists_names_ending_in_ext_witness :
  plain "tmpl" = true ∧
  ∃ n, @lstat Demo.world "./templates" = inr n ∧
    ∀ p, p ∈ [ "templates/about.page.tmpl"; "templates/base.layout.tmpl";
               "templates/css.partial.tmpl"; "templates/footer.partial.tmpl";
               "templates/home.page.tmpl"; "templates/mail/mail.layout.tmpl" ] ↔
         ∃ name base, (p, name) ∈ Walk.visits "./templates" n ∧
                      name = base +:+ ".tmpl".
Proof.
  split; [reflexivity|].
  exact (find_lists_names_ending_in_ext (H := Demo.world) "./templates" "tmpl" _
           eq_refl eq_refl).
Defined.

(** ** More on loading *)

Section Reloading.
Context `{Capabilities}.

(** How [LoadLayoutsAndPartials] ends, by what its loop returns. *)
Lemma load_outcome s fileTypes :
  LoadLayoutsAndPartials fileTypes s =
  let line159 :=
    Stdout (Sprintln ["159 - page-LoadLayoutsAndPartials: "; Sprint_slice fileTypes]) in
  match load_loop (TemplateDir (ren s)) fileTypes [] with
  | (templates, None) =>
      Returned None
        (mkState _ (with_Partials (ren s) templates)
           (trace s ++
            [ line159;
              Stdout (Sprintln ["171 - page-LoadLayoutsAndPartials: ";
                                Sprint_slice templates]) ]))
  | (_, Some err) => Returned (Some err) (mkState _ (ren s) (trace s ++ [line159]))
  end.
Proof.
  destruct s as [r tr]. unfold LoadLayoutsAndPartials. go.
  destruct (load_loop (TemplateDir r) fileTypes []) as [templates [err|]]; go; [done|].
  by rewrite <- app_assoc.
Qed.

(** What the loop returns: the error of [find], if it has one and there is
    a file type to look for, and else all the lists found. *)
Lemma load_loop_spec dir fileTypes templates :
  load_loop dir fileTypes templates =
  match fileTypes, (find dir ".tmpl").2 with
  | _ :: _, Some err => (templates, Some err)
  | _, _ =>
      (templates ++ concat ((λ ft, (addTemplate dir ft).1) <$> fileTypes), None)
  end.
Proof.
  destruct fileTypes as [|ft rest]; [by rewrite app_nil_r|].
  destruct (find dir ".tmpl").2 as [err|] eqn:Hfind.
  - simpl. pose proof (addTemplate_error dir ft) as Hft. rewrite Hfind in Hft.
    by destruct (addTemplate dir ft) as [files [e|]]; simpl in *; simplify_eq.
  - apply load_loop_all. apply Forall_forall. intros ft' _.
    by rewrite addTemplate_error.
Qed.

Lemma load_loop_found dir fileTypes templates :
  (find dir ".tmpl").2 = None →
  load_loop dir fileTypes templates =
  (templates ++ concat ((λ ft, (addTemplate dir ft).1) <$> fileTypes), None).
Proof.
  intros Hfind. rewrite load_loop_spec, Hfind. by destruct fileTypes.
Qed.

Lemma no_parse_in_load s fileTypes :
  parse_calls (trace (final (LoadLayoutsAndPartials fileTypes s))) =
  parse_calls (trace s).
Proof.
  rewrite load_outcome. simpl.
  destruct (load_loop _ _ _) as [templates [err|]]; simpl;
    rewrite parse_calls_app; simpl; by rewrite app_nil_r.
Qed.

Lemma occurrences_app x l1 l2 :
  occurrences x (l1 ++ l2) = occurrences x l1 + occurrences x l2.
Proof. unfold occurrences. by rewrite filter_app, length_app. Qed.

Lemma occurrences_concat x (ls : list (list string)) :
  occurrences x (concat ls) = sum_list (occurrences x <$> ls).
Proof.
  induction ls as [|l ls IH]; [done|]. simpl.
  by rewrite occurrences_app, IH.
Qed.

Lemma occurrences_elem x l : x ∈ l → 1 ≤ occurrences x l.
Proof.
  intros Hin. unfold occurrences.
  assert (x ∈ filter (λ y, y = x) l) as Hf by (by apply list_elem_of_filter).
  destruct (filter (λ y, y = x) l); [by apply elem_of_nil in Hf|simpl; lia].
Qed.

End Reloading.

(** X12.  [LoadLayoutsAndPartials] returns an error exactly when it is given
    at least one file type and the walk of [TemplateDir] fails, and the
    error is that of the walk: it does not depend on the file types.  With
    no file type it returns nil without looking at the directory and
    leaves [Partials] empty. *)
Theorem LoadLayoutsAndPartials_error `{Capabilities}
    (s : State) (fileTypes : list string) :
  (∃ s', LoadLayoutsAndPartials fileTypes s =
         Returned (match fileTypes with
                   | [] => None
                   | _ :: _ => (find (TemplateDir (ren s)) ".tmpl").2
                   end) s') ∧
  ren (final (LoadLayoutsAndPartials [] s)) = with_Partials (ren s) [].
Proof.
  split.
  - rewrite load_outcome, load_loop_spec. simpl.
    destruct fileTypes as [|ft rest]; [eauto|].
    destruct (find (TemplateDir (ren s)) ".tmpl").2 as [err|]; eauto.
  - by rewrite load_outcome.
Qed.

(** X13.  [LoadLayoutsAndPartials] replaces [Partials] and does not add to
    it: with the same files on disk, loading the same file types a second
    time leaves the receiver as the first loading left it. *)
Theorem LoadLayoutsAndPartials_twice `{Capabilities}
    (s : State) (fileTypes : list string) :
  let s1 := final (LoadLayoutsAndPartials fileTypes s) in
  ren (final (LoadLayoutsAndPartials fileTypes s1)) = ren s1.
Proof.
  intros s1. subst s1. rewrite !load_outcome. simpl.
  destruct (load_loop (TemplateDir (ren s)) fileTypes []) as [templates [err|]] eqn:Hl;
    simpl; rewrite Hl; [done|]. by destruct (ren s).
Qed.

(** X14.  Nothing is merged: after a successful loading every path occurs in
    [Partials] as often as it occurs in the lists found for the file
    types, taken together.  A path that two file types match is there
    twice. *)
Theorem LoadLayoutsAndPartials_keeps_duplicates `{Capabilities}
    (s : State) (fileTypes : list string) (p : string) :
  (find (TemplateDir (ren s)) ".tmpl").2 = None →
  occurrences p (Partials (ren (final (LoadLayoutsAndPartials fileTypes s)))) =
  sum_list ((λ ft, occurrences p (addTemplate (TemplateDir (ren s)) ft).1) <$> fileTypes).
Proof.
  intros Hfind. rewrite load_outcome, (load_loop_found _ _ _ Hfind). simpl.
  by rewrite occurrences_concat, <- list_fmap_compose.
Qed.

Lemma LoadLayoutsAndPartials_keeps_duplicates_witness :
  (@find Demo.world (TemplateDir (ren (Demo.fresh true))) ".tmpl").2 = None ∧
  occurrences "templates/base.layout.tmpl"
    (Partials (ren (final
       (@LoadLayoutsAndPartials Demo.world ["layout"; ".layout"] (Demo.fresh true))))) = 2.
Proof.
  split; [reflexivity|].
  exact (LoadLayoutsAndPartials_keeps_duplicates (Demo.fresh true)
           ["layout"; ".layout"] "templates/base.layout.tmpl" eq_refl).
Defined.

(** X15.  Loading and building compose: after a successful
    [LoadLayoutsAndPartials fileTypes], a disk build of [t] hands the
    compile capability every path found for every file type, in the order
    of [fileTypes], followed by the path of the page. *)
Theorem loaded_partials_are_compiled `{Capabilities}
    (s s1 : State) (fileTypes : list string) (t : string) :
  LoadLayoutsAndPartials fileTypes s = Returned None s1 →
  let dir := TemplateDir (ren s) in
  parse_calls (trace (final (buildTemplateFromDisk t s1))) =
  parse_calls (trace s) ++
  [(t, concat ((λ ft, (addTemplate dir ft).1) <$> fileTypes) ++ [Path.Join dir t])].
Proof.
  intros Hload dir. subst dir.
  pose proof (no_parse_in_load s fileTypes) as Hcalls.
  rewrite Hload in Hcalls. simpl in Hcalls.
  rewrite build_parse_calls, Hcalls. do 3 f_equal.
  rewrite load_outcome, load_loop_spec in Hload. simpl in Hload.
  unfold build_files.
  destruct fileTypes as [|ft rest];
    [|destruct (find (TemplateDir (ren s)) ".tmpl").2 as [err|]; [done|]];
    by injection Hload as <-.
Qed.

Lemma loaded_partials_are_compiled_witness :
  ∃ s1,
    @LoadLayoutsAndPartials Demo.world [".layout"; ".partial"] (Demo.fresh true) =
      Returned None s1 ∧
    parse_calls (trace (final (buildTemplateFromDisk Demo.home s1))) =
    [("home.page.tmpl",
      [ "templates/base.layout.tmpl"; "templates/mail/mail.layout.tmpl";
        "templates/css.partial.tmpl"; "templates/footer.partial.tmpl";
        "templates/home.page.tmpl" ])].
Proof.
  exists (final (@LoadLayoutsAndPartials Demo.world [".layout"; ".partial"]
                   (Demo.fresh true))).
  split; [reflexivity|].
  exact (loaded_partials_are_compiled (Demo.fresh true) _ [".layout"; ".partial"]
           Demo.home eq_refl).
Defined.

(** X16.  Loading does not touch the cache: with the cache on, a set cached
    before [LoadLayoutsAndPartials] is what a resolution returns after it,
    without a build, whatever the loading found. *)
Theorem loading_keeps_cached_sets `{Capabilities}
    (s : State) (fileTypes : list string) (t : string) (tm : Template) :
  UseCache (ren s) = true →
  cached (ren s) t = Some tm →
  let s1 := final (LoadLayoutsAndPartials fileTypes s) in
  buildTemplate t s1 =
    Returned (Some tm, None)
      (mkState _ (ren s1) (trace s1 ++ cache_events (ren s1) t)) ∧
  parse_calls (trace (final (buildTemplate t s1))) = parse_calls (trace s).
Proof.
  intros Huse Hc s1.
  assert (UseCache (ren s1) = true ∧ cached (ren s1) t = Some tm) as [Huse1 Hc1].
  { subst s1. rewrite load_outcome. simpl.
    by destruct (load_loop _ _ _) as [templates [err|]]. }
  rewrite (resolve_hit _ _ _ Huse1 Hc1). split; [done|]. simpl.
  rewrite parse_calls_app, cache_events_no_parse, app_nil_r.
  apply no_parse_in_load.
Qed.

Lemma loading_keeps_cached_sets_witness :
  UseCache (ren (Demo.holding Demo.home true)) = true ∧
  Partials (ren (final (@LoadLayoutsAndPartials Demo.world [".layout"]
                          (Demo.holding Demo.home true)))) =
    ["templates/base.layout.tmpl"; "templates/mail/mail.layout.tmpl"] ∧
  parse_calls (trace (final (buildTemplate Demo.home
     (final (@LoadLayoutsAndPartials Demo.world [".layout"]
               (Demo.holding Demo.home true)))))) = [].
Proof.
  split; [reflexivity|]. split; [reflexivity|].
  exact (proj2 (loading_keeps_cached_sets (Demo.holding Demo.home true) [".layout"]
                  Demo.home (Demo.page Demo.home) eq_refl eq_refl)).
Defined.

(** ** The handlers of [main.go] *)

(** X17.  The handler of [/] answers by what [Show] returns.  If the page is
    shown, only its bytes go to the response.  If the resolution fails,
    [http.Error] is called once, with status 400.  If the execution fails,
    [http.Error] is called twice with the same error: by [Show] with
    status 500 and then by the handler with status 400. *)
Theorem handle_root_responses `{Capabilities} (payload : string → Data)
    (s : State) (w : ResponseWriter) :
  let t := "home.page.gohtml" in
  let data := payload "This is MY passed data." in
  (∀ tm s', buildTemplate t s = Returned (Some tm, None) s' →
     handle_root payload w s =
     match execute_template tm t data with
     | (written, None) => Returned (w ++ [Write written]) s'
     | (written, Some err) =>
         Returned (w ++ [Write written; HttpError err 500; HttpError err 400])
           (mkState _ (ren s')
              (trace s' ++ [ Logged (Sprintln ["error executing"; err]);
                             Logged (Sprintln [err]) ]))
     end) ∧
  (∀ tmpl err s', buildTemplate t s = Returned (tmpl, Some err) s' →
     handle_root payload w s =
     Returned (w ++ [HttpError err 400])
       (mkState _ (ren s')
          (trace s' ++ [ Logged (Sprintln ["error building"; err]);
                         Logged (Sprintln [err]) ]))) ∧
  (∀ p s', buildTemplate t s = Panicked p s' →
     handle_root payload w s = Panicked p s').
Proof.
  intros t data. subst t data. unfold handle_root, Show. split; [|split].
  - intros tm s' Hres. rewrite !run_bind, Hres. go.
    destruct (execute_template tm _ _) as [written [err|]]; go; [|done].
    by rewrite <- !app_assoc.
  - intros tmpl err s' Hres. rewrite !run_bind, Hres. go.
    by rewrite <- !app_assoc.
  - intros p s' Hres. by rewrite !run_bind, Hres.
Qed.

Lemma handle_root_responses_witness :
  @handle_root Demo.world (λ text, "boom") []
    (Demo.start (Demo.render true
       (Some {[ "home.page.gohtml" := Some (Demo.page "home.page.gohtml") ]}) [])) =
  Returned [ Write "<html>"; HttpError "template: execution failed" 500;
             HttpError "template: execution failed" 400 ]
    (mkState _
       (Demo.render true
          (Some {[ "home.page.gohtml" := Some (Demo.page "home.page.gohtml") ]}) [])
       [ MapRead "home.page.gohtml";
         Logged "Reading template home.page.gohtml from cache";
         Logged "error executing template: execution failed";
         Logged "template: execution failed" ]).
Proof.
  exact (proj1 (handle_root_responses (H := Demo.world) (λ text, "boom")
                  (Demo.start (Demo.render true
                     (Some {[ "home.page.gohtml" := Some (Demo.page "home.page.gohtml") ]}) []))
                  [])
               (Demo.page "home.page.gohtml") _ eq_refl).
Defined.

(** X18.  The handler of [/string] never sends the rendered page: when
    [String] succeeds, the text goes to the log and the response gets the
    fixed line; when it fails, [http.Error] is called once, with status
    400, and the error is logged. *)
Theorem handle_string_responses `{Capabilities} (payload : string → Data)
    (s : State) (w : ResponseWriter) :
  let t := "home.page.gohtml" in
  let data := payload "This is passed data." in
  (∀ out s', String_ t data s = Returned (out, None) s' →
     handle_string payload w s =
     Returned (w ++ [Write "Check the console; you should see html"])
       (mkState _ (ren s') (trace s' ++ [Logged (Sprintln [out])]))) ∧
  (∀ out err s', String_ t data s = Returned (out, Some err) s' →
     handle_string payload w s =
     Returned (w ++ [HttpError err 400])
       (mkState _ (ren s') (trace s' ++ [Logged (Sprintln [err])]))) ∧
  (∀ p s', String_ t data s = Panicked p s' →
     handle_string payload w s = Panicked p s').
Proof.
  intros t data. subst t data. unfold handle_string. split; [|split].
  - intros out s' Hres. rewrite run_bind, Hres. by go.
  - intros out err s' Hres. rewrite run_bind, Hres. by go.
  - intros p s' Hres. by rewrite run_bind, Hres.
Qed.

Lemma handle_string_responses_witness :
  @handle_string Demo.world (λ text, text) []
    (Demo.start (Demo.render true
       (Some {[ "home.page.gohtml" := Some (Demo.page "home.page.gohtml") ]}) [])) =
  Returned [ Write "Check the console; you should see html" ]
    (mkState _
       (Demo.render true
          (Some {[ "home.page.gohtml" := Some (Demo.page "home.page.gohtml") ]}) [])
       [ MapRead "home.page.gohtml";
         Logged "Reading template home.page.gohtml from cache";
         Logged "(default): This is passed data." ]).
Proof.
  exact (proj1 (handle_string_responses (H := Demo.world) (λ text, text)
                  (Demo.start (Demo.render true
                     (Some {[ "home.page.gohtml" := Some (Demo.page "home.page.gohtml") ]}) []))
                  [])
               "(default): This is passed data." _ eq_refl).
Defined.

Section Program.
Context `{Capabilities}.

Lemma main_load_ren s s1 :
  main_load s = Returned None s1 →
  ∃ partials, ren s1 = with_Partials (ren s) partials.
Proof.
  unfold main_load. rewrite run_bind, load_outcome, load_loop_spec.
  destruct (find (TemplateDir (ren s)) ".tmpl").2 as [err|]; go; [done|].
  intros [= <-]. eauto.
Qed.

End Program.

(** X19.  The program of [main.go], once its layouts are loaded and provided
    the page [home.page.gohtml] compiles: the first request to [/] does not
    return, it panics on the nil template read at line 173, after the
    compiled page has been stored; the second request is answered from the
    cache, without reading a file, with what the execution of that page
    writes. *)
Theorem first_request_panics_second_is_served `{Capabilities}
    (payload : string → Data) (tr : list Event) (s1 : State) (defs : Defs)
    (w w' : ResponseWriter) :
  let t := "home.page.gohtml" in
  main_load (mkState _ main_render tr) = Returned None s1 →
  parse_files t (Functions (ren s1)) (build_files (ren s1) t) = inr defs →
  (∃ s2, handle_root payload w s1 = Panicked NilPointerDereference s2) ∧
  let s2 := final (handle_root payload w s1) in
  let '(written, err) :=
    execute_template (compiled (ren s1) t defs) t (payload "This is MY passed data.") in
  ∃ s3,
    handle_root payload w' s2 =
    Returned (w' ++ Write written ::
                    match err with
                    | Some err => [HttpError err 500; HttpError err 400]
                    | None => []
                    end) s3 ∧
    parse_calls (trace s3) = parse_calls (trace s2).
Proof.
  intros t Hload Hparse. subst t.
  destruct (main_load_ren _ _ Hload) as [partials Hren]. simpl in Hren.
  assert (UseCache (ren s1) = true) as Huse by (by rewrite Hren).
  assert (TemplateMap (ren s1) = Some ∅) as Hmap by (by rewrite Hren).
  assert (cached (ren s1) "home.page.gohtml" = None) as Hc.
  { unfold cached. by rewrite Hmap. }
  assert (∃ tr2, buildTemplate "home.page.gohtml" s1 =
    Panicked NilPointerDereference
      (mkState _
         (with_TemplateMap (ren s1)
            (Some (<["home.page.gohtml" :=
                     Some (compiled (ren s1) "home.page.gohtml" defs)]> ∅)))
         tr2)) as [tr2 Hfirst].
  { rewrite resolve_miss by (by rewrite Huse, Hc).
    rewrite (build_stored_map _ _ defs ∅) by done. simpl.
    unfold cached, with_TemplateMap; simpl.
    rewrite lookup_insert_ne by done. rewrite lookup_empty. simpl. eauto. }
  assert (handle_root payload w s1 =
    Panicked NilPointerDereference
      (mkState _
         (with_TemplateMap (ren s1)
            (Some (<["home.page.gohtml" :=
                     Some (compiled (ren s1) "home.page.gohtml" defs)]> ∅)))
         tr2)) as Hpanic.
  { unfold handle_root, Show. by rewrite !run_bind, Hfirst. }
  split; [eauto|]. rewrite Hpanic. simpl.
  destruct (execute_template _ _ _) as [written err] eqn:Hexec.
  unfold handle_root, Show. rewrite !run_bind.
  erewrite resolve_hit; [| |unfold cached, with_TemplateMap; simpl;
                              by rewrite lookup_insert_eq]; [|done].
  go. rewrite Hexec.
  destruct err as [err|]; go; eexists; (split; [rewrite <- ?app_assoc; reflexivity|]);
    simpl; rewrite ?parse_calls_app, cache_events_no_parse; simpl;
    by rewrite ?app_nil_r.
Qed.

Lemma first_request_panics_second_is_served_witness :
  ∃ s1,
    @main_load Demo.site (mkState _ main_render []) = Returned None s1 ∧
    (∃ s2, @handle_root Demo.site (λ text, text) [] s1 =
           Panicked NilPointerDereference s2) ∧
    ∃ s3,
      @handle_root Demo.site (λ text, text) []
        (final (@handle_root Demo.site (λ text, text) [] s1)) =
      Returned [Write "home.page.gohtml: This is MY passed data."] s3.
Proof.
  exists (final (@main_load Demo.site (mkState _ main_render []))).
  split; [reflexivity|].
  pose proof (first_request_panics_second_is_served (H := Demo.site) (λ text, text)
                [] _ ["templates/base.layout.tmpl"; "templates/home.page.gohtml"]
                [] [] eq_refl eq_refl) as [Hfirst Hsecond].
  split; [exact Hfirst|].
  destruct Hsecond as [s3 [Hsecond _]]. exists s3. exact Hsecond.
Defined.

(** ** When a build returns *)

Section Returning.
Context `{Capabilities}.

(** The set that line 173 reads, after the set for [t] was stored. *)
Lemma about_after_store (r : Render) t tm m :
  TemplateMap r = Some m →
  cached (with_TemplateMap r (Some (<[t := Some tm]> m))) "about.page.tmpl" =
  if decide (t = "about.page.tmpl") then Some tm else cached r "about.page.tmpl".
Proof.
  intros Hmap. unfold cached, with_TemplateMap; simpl. rewrite Hmap. simpl.
  case_decide as Ht.
  - subst t. by rewrite lookup_insert_eq.
  - by rewrite lookup_insert_ne.
Qed.

End Returning.

(** X20.  [buildTemplateFromDisk t] returns a set only on an allocated cache
    map, and only when [t] is [about.page.tmpl] or the map already holds a
    set under [about.page.tmpl]; the set is then the one just compiled and
    is in the cache under [t].  It returns an error only when the compile
    step fails, and the error is that of the compile step. *)
Theorem build_returns_only_if `{Capabilities} (s s' : State) (t : string) :
  (∀ tm, buildTemplateFromDisk t s = Returned (Some tm, None) s' →
     is_Some (TemplateMap (ren s)) ∧
     (t = "about.page.tmpl" ∨ is_Some (cached (ren s) "about.page.tmpl")) ∧
     parse_files t (Functions (ren s)) (build_files (ren s) t) =
       inr (template.Set_ tm) ∧
     cached (ren s') t = Some tm) ∧
  (∀ tmpl err, buildTemplateFromDisk t s = Returned (tmpl, Some err) s' →
     parse_files t (Functions (ren s)) (build_files (ren s) t) = inl err ∧
     tmpl = None ∧ ren s' = ren s).
Proof.
  destruct (parse_files t (Functions (ren s)) (build_files (ren s) t))
    as [err|defs] eqn:Hparse.
  - rewrite (build_parse_error _ t err) by done. split; [done|].
    by intros tmpl err' [= <- <- <-].
  - destruct (TemplateMap (ren s)) as [m|] eqn:Hmap.
    + rewrite (build_stored_map _ t defs m) by done. simpl.
      rewrite (about_after_store _ _ _ _ Hmap).
      assert (cached (with_TemplateMap (ren s)
                (Some (<[t:=Some (compiled (ren s) t defs)]> m))) t =
              Some (compiled (ren s) t defs)) as Hstored.
      { unfold cached, with_TemplateMap; simpl. by rewrite lookup_insert_eq. }
      case_decide as Ht.
      * split; [|done]. intros tm [= <- <-]. split_and!; eauto.
      * destruct (cached (ren s) "about.page.tmpl") as [tpl|] eqn:Habout;
          (split; [|done]); [|done].
        intros tm [= <- <-]. split_and!; eauto.
    + by rewrite (build_nil_map _ t defs).
Qed.

Lemma build_returns_only_if_witness :
  buildTemplateFromDisk Demo.home (Demo.holding Demo.about true) =
    Returned (Some (Demo.page Demo.home), None)
      (final (buildTemplateFromDisk Demo.home (Demo.holding Demo.about true))) ∧
  is_Some (cached (ren (Demo.holding Demo.about true)) "about.page.tmpl").
Proof.
  split; [reflexivity|].
  destruct (proj1 (build_returns_only_if (Demo.holding Demo.about true)
                     (final (buildTemplateFromDisk Demo.home (Demo.holding Demo.about true)))
                     Demo.home) (Demo.page Demo.home) eq_refl)
    as (_ & [Habout|Habout] & _); [done|exact Habout].
Defined.

(** X21.  A resolution on an allocated cache map never panics on an
    assignment to a nil map.  And whenever a resolution panics on a nil
    pointer, the cache map is allocated, the set for [t] is already in the
    cache and no set is there under [about.page.tmpl]: the panic is that of
    line 174. *)
Theorem resolution_nil_panics `{Capabilities} (s s' : State) (t : string) :
  (is_Some (TemplateMap (ren s)) →
   buildTemplate t s ≠ Panicked NilMapAssignment s') ∧
  (buildTemplate t s = Panicked NilPointerDereference s' →
   is_Some (TemplateMap (ren s)) ∧
   is_Some (cached (ren s') t) ∧
   cached (ren s') "about.page.tmpl" = None).
Proof.
  destruct (if UseCache (ren s) then cached (ren s) t else None) as [tm|] eqn:Hc.
  - destruct (UseCache (ren s)) eqn:Huse; [|done].
    by rewrite (resolve_hit _ _ _ Huse Hc).
  - rewrite (resolve_miss _ _ Hc).
    destruct (parse_files t (Functions (ren s)) (build_files (ren s) t))
      as [err|defs] eqn:Hparse.
    + by rewrite (build_parse_error _ t err).
    + destruct (TemplateMap (ren s)) as [m|] eqn:Hmap.
      * rewrite (build_stored_map _ t defs m) by done. simpl.
        destruct (cached (with_TemplateMap _ _) "about.page.tmpl") as [tpl|] eqn:Habout;
          simpl; [done|].
        split; [done|]. intros [= <-]. simpl. split; [eauto|]. split; [|done].
        unfold cached, with_TemplateMap; simpl. rewrite lookup_insert_eq. eauto.
      * rewrite (build_nil_map _ t defs) by done. simpl.
        split; [by intros [? ?]|done].
Qed.

Lemma resolution_nil_panics_witness :
  is_Some (TemplateMap (@New Demo.world)) ∧
  buildTemplate "templates/home.page.tmpl" (@mkState Demo.world New []) =
    Panicked NilPointerDereference
      (final (buildTemplate "templates/home.page.tmpl" (@mkState Demo.world New []))) ∧
  is_Some (cached
    (ren (final (buildTemplate "templates/home.page.tmpl" (@mkState Demo.world New []))))
    "templates/home.page.tmpl").
Proof.
  split; [eauto|]. split; [reflexivity|].
  exact (proj1 (proj2 (proj2 (resolution_nil_panics
           (@mkState Demo.world New []) _ "templates/home.page.tmpl") eq_refl))).
Defined.

(** ** Debug mode *)

Arguments without_debug : simpl never.

Section Debugging.
Context `{Capabilities}.

Lemma without_debug_Logged t line tr :
  without_debug t (Logged line :: tr) =
  if decide (line = Sprintln ["Reading template"; t; "from cache"] ∨
             line = Sprintln ["Reading template"; t; "from disk"])
  then without_debug t tr
  else Logged line :: without_debug t tr.
Proof. reflexivity. Qed.

Lemma without_debug_other t e tr :
  is_log e = false → without_debug t (e :: tr) = e :: without_debug t tr.
Proof. by destruct e. Qed.

Lemma without_debug_app t tr1 tr2 :
  without_debug t (tr1 ++ tr2) = without_debug t tr1 ++ without_debug t tr2.
Proof.
  induction tr1 as [|e tr1 IH]; [done|].
  rewrite <- app_comm_cons.
  destruct (is_log e) eqn:He.
  - destruct e; try done. rewrite !without_debug_Logged, IH. by case_decide.
  - by rewrite !without_debug_other, IH.
Qed.

(** The two lines of debug mode start with the letter R. *)
Lemma debug_line_shape t (from : string) :
  ∃ rest, Sprintln ["Reading template"; t; from] = String "R" rest.
Proof. eexists. reflexivity. Qed.

Lemma debug_line_dropped t (from : string) tr :
  from = "from cache" ∨ from = "from disk" →
  without_debug t (Logged (Sprintln ["Reading template"; t; from]) :: tr) =
  without_debug t tr.
Proof.
  intros Hfrom. rewrite without_debug_Logged, decide_True; [done|].
  destruct Hfrom as [-> | ->]; auto.
Qed.

Lemma other_line_kept t line tr :
  (∀ rest, line ≠ String "R" rest) →
  without_debug t (Logged line :: tr) = Logged line :: without_debug t tr.
Proof.
  intros Hline. rewrite without_debug_Logged, decide_False; [done|].
  intros [Heq | Heq];
    destruct (debug_line_shape t "from cache") as [rest1 H1];
    destruct (debug_line_shape t "from disk") as [rest2 H2];
    rewrite ?H1, ?H2 in Heq; by eapply Hline.
Qed.

Lemma t_line_kept t tr' :
  without_debug t (Logged (Sprintln ["t"; t]) :: tr') =
  Logged (Sprintln ["t"; t]) :: without_debug t tr'.
Proof.
  apply other_line_kept. intros rest Heq.
  assert (Sprintln ["t"; t] = String "t" (" " +:+ t)) as E by reflexivity.
  rewrite E in Heq. discriminate.
Qed.

Lemma error_line_kept t tr' :
  without_debug t (Logged "Error building from disk" :: tr') =
  Logged "Error building from disk" :: without_debug t tr'.
Proof. apply other_line_kept. intros rest Heq. discriminate. Qed.

Lemma cache_events_Debug (r : Render) t b :
  without_debug t (cache_events (with_Debug r b) t) =
  cache_events (with_Debug r false) t.
Proof.
  unfold cache_events, has_entry. cbn [UseCache TemplateMap Debug with_Debug].
  destruct (UseCache r); [|reflexivity].
  rewrite without_debug_other by done. f_equal.
  rewrite andb_false_r.
  destruct (match TemplateMap r with Some m => _ | None => _ end), b;
    cbn [andb]; try reflexivity.
  apply debug_line_dropped. auto.
Qed.

(** The events of a disk build, without the lines of debug mode. *)
Lemma build_stored_quiet (r : Render) t :
  without_debug t (build_stored r t) = build_stored r t.
Proof.
  unfold build_stored, build_prefix.
  repeat (rewrite <- app_comm_cons || rewrite without_debug_other by done).
  reflexivity.
Qed.

Lemma build_prefix_quiet (r : Render) t :
  without_debug t (build_prefix r t) = build_prefix r t.
Proof.
  unfold build_prefix. by rewrite !without_debug_other by done.
Qed.

Lemma build_suffix_Debug (r : Render) t tpl b :
  without_debug t (build_suffix (with_Debug r b) t tpl) =
  build_suffix (with_Debug r false) t tpl.
Proof.
  unfold build_suffix. cbn [Debug with_Debug].
  rewrite without_debug_other by done. f_equal.
  destruct b; [|reflexivity]. apply debug_line_dropped. auto.
Qed.

End Debugging.

(** X22.  Debug mode only logs.  With [Debug] on or off a resolution ends
    the same way, with the same values or the same panic, leaves the same
    cache map and every other field, and does the same things in the same
    order, but for the lines [Reading template ... from cache] and
    [Reading template ... from disk] that it logs when [Debug] is on. *)
Theorem Debug_only_logs `{Capabilities} (r : Render) (tr : list Event) (t : string) :
  let on := mkState _ (with_Debug r true) tr in
  let off := mkState _ (with_Debug r false) tr in
  result_of (buildTemplate t on) = result_of (buildTemplate t off) ∧
  with_Debug (ren (final (buildTemplate t on))) false =
    ren (final (buildTemplate t off)) ∧
  without_debug t (new_events on (buildTemplate t on)) =
    new_events off (buildTemplate t off).
Proof.
  intros on off. subst on off.
  destruct (if UseCache r then cached r t else None) as [tm|] eqn:Hc.
  - destruct (UseCache r) eqn:Huse; [|done].
    rewrite (resolve_hit (mkState _ (with_Debug r true) tr) t tm) by done.
    rewrite (resolve_hit (mkState _ (with_Debug r false) tr) t tm) by done.
    split; [done|]. split; [done|].
    erewrite !new_events_app by reflexivity. apply cache_events_Debug.
  - rewrite (resolve_miss (mkState _ (with_Debug r true) tr) t) by done.
    rewrite (resolve_miss (mkState _ (with_Debug r false) tr) t) by done.
    cbn [ren trace].
    destruct (parse_files t (Functions r) (build_files r t)) as [err|defs] eqn:Hparse.
    + rewrite !(build_parse_error _ t err) by done. cbn [after_build ren trace].
      split; [done|]. split; [done|].
      cbn [final trace]. rewrite <- ?app_assoc. erewrite !new_events_app by reflexivity.
      rewrite !without_debug_app, cache_events_Debug, t_line_kept.
      rewrite build_prefix_quiet, error_line_kept. done.
    + destruct (TemplateMap r) as [m|] eqn:Hmap.
      * rewrite !(build_stored_map _ t defs m) by done.
        cbn [ren trace].
        change (cached (with_TemplateMap (with_Debug r true)
                  (Some (<[t:=Some (compiled (with_Debug r true) t defs)]> m)))
                  "about.page.tmpl")
          with (cached (with_TemplateMap r
                  (Some (<[t:=Some (compiled r t defs)]> m))) "about.page.tmpl").
        change (cached (with_TemplateMap (with_Debug r false)
                  (Some (<[t:=Some (compiled (with_Debug r false) t defs)]> m)))
                  "about.page.tmpl")
          with (cached (with_TemplateMap r
                  (Some (<[t:=Some (compiled r t defs)]> m))) "about.page.tmpl").
        destruct (cached (with_TemplateMap r _) "about.page.tmpl") as [tpl|];
          cbn [after_build final result_of ren trace];
          (split; [done|]); (split; [done|]);
          cbn [final trace]; rewrite <- ?app_assoc; erewrite !new_events_app by reflexivity;
          rewrite !without_debug_app, cache_events_Debug, t_line_kept;
          rewrite ?build_suffix_Debug;
          change (build_stored (with_Debug r true) t) with (build_stored r t);
          change (build_stored (with_Debug r false) t) with (build_stored r t);
          by rewrite build_stored_quiet.
      * rewrite !(build_nil_map _ t defs) by done.
        cbn [after_build final result_of ren trace].
        split; [done|]. split; [done|].
        cbn [final trace]; rewrite <- ?app_assoc; erewrite !new_events_app by reflexivity.
        rewrite !without_debug_app, cache_events_Debug, t_line_kept.
        rewrite build_prefix_quiet.
        by rewrite !without_debug_other by done.
Qed.
